(** * Momento: the key-revelation engine

    A shallow embedding of [core/challenges/models.py],
    [core/challenges/minigames.py] and the routes of [routes/minigames.py]
    (the hub, the five page routes and the five completion handlers), with
    the properties of the key splitter, the progress ledger, the masked key,
    the minigame generators and verifiers, and of games played through.

    Python values are modelled as follows: [str] is [string], [int] is [Z]
    (floor division and modulo are [Z.div] and [Z.modulo], whose results
    have the sign of the divisor as Python's do), a list is a [list], a dict
    with string keys is a [gmap string _], a raised exception is [Raise]. *)

From Stdlib Require Import ZArith Ascii String List Lia Permutation Sorted DecimalString.
From stdpp Require Import base gmap strings list fin_maps.

Local Open Scope Z_scope.

(** ** Python preliminaries *)

Inductive exn : Set :=
  | ZeroDivisionError
  | TypeError
  | KeyError.

Inductive result (A : Type) : Type :=
  | Ok (a : A)
  | Raise (e : exn).
Arguments Ok {A} a.
Arguments Raise {A} e.

(** [len(s)] *)
Definition len (s : string) : Z := Z.of_nat (String.length s).

(** [range(n)]: empty when [n <= 0]. *)
Definition range (n : Z) : list Z := map Z.of_nat (seq 0 (Z.to_nat n)).

(** [range(a, b)] *)
Definition range2 (a b : Z) : list Z := map (fun i => a + i) (range (b - a)).

(** [s[a:b]] for [0 <= a <= b]; like Python's slice, [String.substring]
    stops at the end of the string. *)
Definition slice (s : string) (a b : Z) : string :=
  String.substring (Z.to_nat a) (Z.to_nat (b - a)) s.

(** [c * n] for a one-character string [c]. *)
Fixpoint repeat_char (c : ascii) (n : nat) : string :=
  match n with
  | O => EmptyString
  | S n' => String c (repeat_char c n')
  end.

(** [''.join(l)] *)
Definition join (l : list string) : string := fold_right String.append EmptyString l.

(** [not s] on a string *)
Definition str_falsy (s : string) : bool :=
  match s with EmptyString => true | _ => false end.

(** ** core/challenges/models.py *)

(** The datetime stored in [completed_at], as a clock reading. *)
Definition datetime := Z.

Module MinigameProgress.

Record t : Type := mk {
  id : Z;
  user_id : Z;
  challenge_id : string;
  minigame_type : string;
  part_index : Z;
  revealed_part : string;
  completed_at : option datetime
}.

(** The table [minigame_progress], rows in insertion order. *)
Definition table := list t.

Definition row_of (user : Z) (challenge : string) (r : t) : bool :=
  (user_id r =? user) && String.eqb (challenge_id r) challenge.

(** [query(cls).filter_by(user_id=, challenge_id=).all()] *)
Definition get_user_progress (user : Z) (challenge : string) (db : table) : list t :=
  List.filter (row_of user challenge) db.

(** [query(cls).filter_by(user_id=, challenge_id=, minigame_type=).first() is not None] *)
Definition has_completed (user : Z) (challenge : string) (game : string) (db : table) : bool :=
  match List.filter (fun r => row_of user challenge r && String.eqb (minigame_type r) game) db with
  | [] => false
  | _ :: _ => true
  end.

(** The autoincrement primary key: one more than the largest id in use. *)
Definition next_id (db : table) : Z :=
  1 + fold_right (fun r m => Z.max (id r) m) 0 db.

(** [mark_completed]: builds the row, adds it and commits; [now] is the
    reading of [datetime.utcnow] that the column default takes at the
    insert.  Returns the new row and the table. *)
Definition mark_completed (user : Z) (challenge : string) (game : string)
    (index : Z) (revealed : string) (now : datetime) (db : table) : t * table :=
  let progress :=
    {| id := next_id db; user_id := user; challenge_id := challenge;
       minigame_type := game; part_index := index; revealed_part := revealed;
       completed_at := Some now |} in
  (progress, db ++ [progress]).

End MinigameProgress.

(** ** core/challenges/minigames.py: key splitting *)

Record KeyPart : Type := mkKeyPart {
  index : Z;
  value : string;
  game_type : string;
  revealed : bool
}.

Definition minigame_types : list string :=
  ["wheel"; "quiz"; "memory"; "slider"; "scramble"]%string.

(** [self.minigame_types[i % len(self.minigame_types)]]: the index is in
    range for every [i], the default is never taken. *)
Definition minigame_type_at (i : Z) : string :=
  nth (Z.to_nat (i mod Z.of_nat (List.length minigame_types))) minigame_types EmptyString.

(** The body of the [for i in range(num_parts)] loop, on the loop state
    [(parts, start)]. *)
Definition split_step (key : string) (base_size remainder : Z)
    (st : list KeyPart * Z) (i : Z) : list KeyPart * Z :=
  let '(parts, start) := st in
  let size := base_size + (if i <? remainder then 1 else 0) in
  if size >? 0 then
    (parts ++ [ {| index := i;
                   value := slice key start (start + size);
                   game_type := minigame_type_at i;
                   revealed := false |} ],
     start + size)
  else (parts, start).

Definition split_key (key : string) (num_parts : Z) : result (list KeyPart) :=
  if str_falsy key then Ok []
  else if num_parts =? 0 then Raise ZeroDivisionError
  else
    let key_length := len key in
    let base_size := key_length / num_parts in
    let remainder := key_length mod num_parts in
    Ok (fst (fold_left (split_step key base_size remainder) (range num_parts) ([], 0))).

(** ** core/challenges/minigames.py: progress and the revealed key *)

Record progress_entry : Type := mkEntry {
  completed : bool;
  entry_revealed_part : string;
  entry_completed_at : option datetime
}.

(** [get_user_progress]: a dict keyed by minigame type; a later row of the
    same type overwrites the entry of an earlier one.  The entry keeps the
    datetime of the row where the source renders it with [isoformat]. *)
Definition get_user_progress (user : Z) (challenge : string)
    (db : MinigameProgress.table) : gmap string progress_entry :=
  fold_left
    (fun res record =>
       <[ MinigameProgress.minigame_type record :=
            {| completed := true;
               entry_revealed_part := MinigameProgress.revealed_part record;
               entry_completed_at := MinigameProgress.completed_at record |} ]> res)
    (MinigameProgress.get_user_progress user challenge db) ∅.

(** [mark_game_completed]: check, then insert. *)
Definition mark_game_completed (user : Z) (challenge : string) (game : string)
    (revealed : string) (index : Z) (now : datetime)
    (db : MinigameProgress.table) : MinigameProgress.table :=
  if negb (MinigameProgress.has_completed user challenge game db) then
    snd (MinigameProgress.mark_completed user challenge game index revealed now db)
  else db.

(** [game_type in progress and progress[game_type].get('completed')] *)
Definition is_completed (progress : gmap string progress_entry) (game : string) : bool :=
  match progress !! game with
  | Some e => completed e
  | None => false
  end.

Definition get_revealed_key (user : Z) (challenge : string) (key_parts : list KeyPart)
    (db : MinigameProgress.table) : string :=
  let progress := get_user_progress user challenge db in
  fold_left
    (fun res part =>
       if is_completed progress (game_type part) then res +:+ value part
       else res +:+ repeat_char "*" (String.length (value part)))
    key_parts EmptyString.

(** ** core/challenges/models.py: Challenge *)

(** JSON-like Python values: what a JSON column holds and what [jsonify]
    is given. *)
#[warnings="-register-all"] Inductive pyval : Type :=
  | PNone
  | PBool (b : bool)
  | PInt (z : Z)
  | PStr (s : string)
  | PList (l : list pyval)
  | PDict (d : list (string * pyval)).

(** Truth value of a Python object, as [or], [and] and [if] take it. *)
Definition truthy (v : pyval) : bool :=
  match v with
  | PNone => false
  | PBool b => b
  | PInt z => negb (z =? 0)
  | PStr s => negb (str_falsy s)
  | PList l => match l with [] => false | _ => true end
  | PDict d => match d with [] => false | _ => true end
  end.

(** [a or b] *)
Definition py_or (a b : pyval) : pyval := if truthy a then a else b.

Definition py_opt_bool (b : option bool) : pyval :=
  match b with Some b => PBool b | None => PNone end.

Module Challenge.

Record t : Type := mk {
  id : string;
  type : string;
  difficulty : string;
  description : string;
  points : string;
  hints : pyval;
  encrypted_message : string;
  flag : string;
  is_active : option bool;
  files : pyval
}.

Definition to_dict (self : t) (exclude_flag : bool) : gmap string pyval :=
  list_to_map
    [ ("id", PStr (id self));
      ("type", PStr (type self));
      ("difficulty", PStr (difficulty self));
      ("description", PStr (description self));
      ("points", PStr (points self));
      ("hints", hints self);
      ("encrypted_message", PStr (encrypted_message self));
      ("flag", PStr (flag self));
      ("is_active", py_opt_bool (is_active self));
      ("files", py_or (files self) (PList [])) ].

End Challenge.

(** ** core/challenges/minigames.py: quiz *)

Record quiz_question : Type := mkQuestion {
  question : string;
  options : list string;
  answer : Z
}.

Definition QUIZ_QUESTIONS : list quiz_question :=
  [ mkQuestion "What does AES stand for?"
      ["Advanced Encryption Standard"; "Automatic Encryption System";
       "Applied Electronic Security"; "Abstract Encoding Scheme"] 0;
    mkQuestion "Which encryption is asymmetric?" ["AES"; "DES"; "RSA"; "XOR"] 2;
    mkQuestion "What is the purpose of an IV in encryption?"
      ["Speed up encryption"; "Add randomness"; "Compress data"; "Verify integrity"] 1;
    mkQuestion "Which hash function is considered insecure?"
      ["SHA-256"; "SHA-512"; "MD5"; "SHA-3"] 2;
    mkQuestion "What does XOR mean?"
      ["Extra Operational Register"; "Exclusive OR"; "Extended Output Result";
       "External Operation Request"] 1;
    mkQuestion "What key size does AES-256 use?"
      ["128 bits"; "192 bits"; "256 bits"; "512 bits"] 2;
    mkQuestion "What is a Caesar cipher?"
      ["Substitution cipher"; "Block cipher"; "Stream cipher"; "Hash function"] 0;
    mkQuestion "What does SSL stand for?"
      ["Secure Sockets Layer"; "System Security Lock"; "Safe Socket Link";
       "Secure System Login"] 0;
    mkQuestion "What is a rainbow table used for?"
      ["Color encryption"; "Password cracking"; "Data compression"; "Network routing"] 1;
    mkQuestion "What is the purpose of salt in hashing?"
      ["Speed up hashing"; "Prevent rainbow table attacks"; "Compress data";
       "Encrypt the hash"] 1 ].

(** [enumerate(l)] *)
Definition enumerate {A : Type} (l : list A) : list (Z * A) :=
  combine (range (Z.of_nat (List.length l))) l.

(** [answers[i]] is read only behind [i < len(answers)], so the default of
    [nth] is never compared. *)
Definition verify_quiz_answers (questions : list quiz_question) (answers : list Z) : Z * Z :=
  let correct :=
    fold_left
      (fun correct iq =>
         let '(i, q) := iq in
         if (i <? Z.of_nat (List.length answers))
            && (nth (Z.to_nat i) answers 0 =? answer q)
         then correct + 1 else correct)
      (enumerate questions) 0 in
  (correct, Z.of_nat (List.length questions)).

(** ** core/challenges/minigames.py: slider *)

(** [a == b] on lists of integers: same length, equal element by element. *)
Fixpoint list_eq (a b : list Z) : bool :=
  match a, b with
  | [], [] => true
  | x :: a', y :: b' => (x =? y) && list_eq a' b'
  | _, _ => false
  end.

Definition verify_slider_solution (puzzle_state : list Z) : bool :=
  let solution := range2 1 9 ++ [0] in
  list_eq puzzle_state solution.

(** ** Python's [random] module

    The generator is a tape of draws: [randbelow n] reads the next draw
    reduced below [n].  [choice] and [shuffle] are the ones of CPython's
    [random.py]: [choice(seq)] is [seq[randbelow(len(seq))]], and [shuffle]
    runs [i] from [len(x)-1] down to [1], drawing [j = randbelow(i+1)] and
    exchanging [x[i]] and [x[j]]. *)

Definition rng := nat -> nat.

(** [n] is positive at every call: 10 in [choice], [i + 1] in [shuffle]. *)
Definition randbelow (n : nat) (g : rng) : nat * rng :=
  ((g O mod n)%nat, fun k => g (S k)).

Definition choice {A : Type} (seq : list A) (d : A) (g : rng) : A * rng :=
  let '(k, g') := randbelow (List.length seq) g in (nth k seq d, g').

(** [x[i], x[j] = x[j], x[i]]: both reads, then the write to [x[i]], then
    the write to [x[j]]. *)
Definition exchange {A : Type} (x : list A) (i j : nat) : list A :=
  match x !! i, x !! j with
  | Some a, Some b => <[j:=a]> (<[i:=b]> x)
  | _, _ => x
  end.

(** The loop of [shuffle] from index [i] down to [1]. *)
Fixpoint shuffle_from {A : Type} (i : nat) (x : list A) (g : rng) : list A * rng :=
  match i with
  | O => (x, g)
  | S i' =>
      let '(j, g') := randbelow (S i) g in
      shuffle_from i' (exchange x i j) g'
  end.

Definition shuffle {A : Type} (x : list A) (g : rng) : list A * rng :=
  shuffle_from (List.length x - 1)%nat x g.

(** ** core/challenges/minigames.py: scramble *)

Definition SCRAMBLE_WORDS : list (string * string) :=
  [ ("ENCRYPTION", "Process of encoding data");
    ("DECRYPTION", "Process of decoding data");
    ("ALGORITHM", "Set of rules for calculations");
    ("CIPHERTEXT", "Encrypted message");
    ("PLAINTEXT", "Unencrypted message");
    ("SYMMETRIC", "Same key for encrypt/decrypt");
    ("ASYMMETRIC", "Different keys for encrypt/decrypt");
    ("HASHING", "One-way function");
    ("SECURITY", "Protection from threats");
    ("CRYPTOGRAPHY", "Science of secret writing") ].

Record scramble_puzzle : Type := mkScramble {
  scrambled : string;
  word : string;
  hint : string
}.

(** The loop [while ''.join(scrambled) == word: random.shuffle(scrambled)].
    [fuel] bounds the number of tests of the loop condition; [None] means
    the loop is still running when the fuel is spent. *)
Fixpoint reshuffle (fuel : nat) (w : string) (s : list ascii) (g : rng)
    : option (list ascii * rng) :=
  match fuel with
  | O => None
  | S fuel' =>
      if String.eqb (string_of_list_ascii s) w then
        let '(s', g') := shuffle s g in reshuffle fuel' w s' g'
      else Some (s, g)
  end.

Definition generate_scramble (fuel : nat) (g : rng) : option (scramble_puzzle * rng) :=
  let '((w, h), g1) := choice SCRAMBLE_WORDS (EmptyString, EmptyString) g in
  let '(s, g2) := shuffle (list_ascii_of_string w) g1 in
  match reshuffle fuel w s g2 with
  | Some (s', g3) =>
      Some ({| scrambled := string_of_list_ascii s'; word := w; hint := h |}, g3)
  | None => None
  end.

(** [str.upper] and [str.strip] on ASCII text. *)
Definition upper_char (c : ascii) : ascii :=
  let n := nat_of_ascii c in
  if ((97 <=? n) && (n <=? 122))%nat then ascii_of_nat (n - 32) else c.

Fixpoint upper (s : string) : string :=
  match s with
  | EmptyString => EmptyString
  | String c s' => String (upper_char c) (upper s')
  end.

Definition isspace (c : ascii) : bool :=
  let n := nat_of_ascii c in
  (((9 <=? n) && (n <=? 13)) || ((28 <=? n) && (n <=? 32)))%nat.

Fixpoint lstrip (s : string) : string :=
  match s with
  | EmptyString => EmptyString
  | String c s' => if isspace c then lstrip s' else s
  end.

Definition strip (s : string) : string :=
  String.rev (lstrip (String.rev (lstrip s))).

Definition verify_scramble (submitted correct : string) : bool :=
  String.eqb (strip (upper submitted)) (upper correct).

(** ** routes/minigames.py: the five completion handlers *)

(** What the generation routes keep in the Flask session: the key part
    (wheel, memory, slider), the dict of the quiz, the dict of the scramble. *)
Inductive session_value : Type :=
  | SKeyPart (key_part : string)
  | SQuiz (questions : list quiz_question) (key_part : string)
  | SScramble (word : string) (key_part : string).

(** [not v]: a stored dict has two entries and is never falsy. *)
Definition session_falsy (v : option session_value) : bool :=
  match v with
  | None => true
  | Some (SKeyPart k) => str_falsy k
  | Some _ => false
  end.

(** The state a request runs in: the progress table and the session of the
    requesting browser. *)
Record state : Type := mkState {
  db : MinigameProgress.table;
  session : gmap string session_value
}.

(** A handler's outcome: the dict given to [jsonify], or an exception. *)
Definition response := result (gmap string pyval).

Definition invalid_session : gmap string pyval :=
  list_to_map [ ("success", PBool false); ("message", PStr "Invalid session") ].

(** [str(n)] for an integer. *)
Definition str_of_int (n : Z) : string := NilZero.string_of_int (Z.to_int n).

(** [mark_game_completed(current_user.id, challenge_id, game, key_part)]
    followed by [session.pop(key, None)]: the call the five handlers share.
    No handler passes [part_index], which takes its default [0]. *)
Definition complete (user : Z) (challenge_id game key_part : string) (key : string)
    (now : datetime) (st : state) : state :=
  {| db := mark_game_completed user challenge_id game key_part 0 now (db st);
     session := delete key (session st) |}.

(** Each handler reads the value under the key of its own game, which only
    the generation route of that game writes: a str for wheel, memory and
    slider, a dict for quiz and scramble (the five key prefixes are
    distinct).  Another shape does not occur there; for one, subscripting a
    str raises [TypeError], a dict without the entry raises [KeyError], and
    a dict handed on as the key part of a row is counted as [TypeError]. *)

Definition wheel_complete (user : Z) (challenge_id : string) (now : datetime)
    (st : state) : response * state :=
  let key := "wheel_" +:+ challenge_id in
  let key_part := session st !! key in
  if session_falsy key_part then (Ok invalid_session, st)
  else match key_part with
  | Some (SKeyPart key_part) =>
      (Ok (list_to_map
             [ ("success", PBool true);
               ("revealed_part", PStr key_part);
               ("message", PStr ("Key part revealed: " +:+ key_part)) ]),
       complete user challenge_id "wheel" key_part key now st)
  | _ => (Raise TypeError, st)
  end.

Definition quiz_submit (user : Z) (challenge_id : string) (answers : option (list Z))
    (now : datetime) (st : state) : response * state :=
  let key := "quiz_" +:+ challenge_id in
  let quiz_data := session st !! key in
  if session_falsy quiz_data then (Ok invalid_session, st)
  else match quiz_data with
  | Some (SQuiz questions key_part) =>
      let answers := default [] answers in
      let '(correct, total) := verify_quiz_answers questions answers in
      if correct >=? 2 then
        (Ok (list_to_map
               [ ("success", PBool true);
                 ("correct", PInt correct);
                 ("total", PInt total);
                 ("revealed_part", PStr key_part);
                 ("message", PStr ("Correct! Key part: " +:+ key_part)) ]),
         complete user challenge_id "quiz" key_part key now st)
      else
        (Ok (list_to_map
               [ ("success", PBool false);
                 ("correct", PInt correct);
                 ("total", PInt total);
                 ("message", PStr ("You got " +:+ str_of_int correct +:+ "/"
                                   +:+ str_of_int total +:+ ". Need at least 2 correct!")) ]),
         st)
  | Some (SScramble _ _) => (Raise KeyError, st)
  | _ => (Raise TypeError, st)
  end.

Definition memory_complete (user : Z) (challenge_id : string) (now : datetime)
    (st : state) : response * state :=
  let key := "memory_" +:+ challenge_id in
  let key_part := session st !! key in
  if session_falsy key_part then (Ok invalid_session, st)
  else match key_part with
  | Some (SKeyPart key_part) =>
      (Ok (list_to_map
             [ ("success", PBool true);
               ("revealed_part", PStr key_part);
               ("message", PStr ("Key part revealed: " +:+ key_part)) ]),
       complete user challenge_id "memory" key_part key now st)
  | _ => (Raise TypeError, st)
  end.

Definition slider_complete (user : Z) (challenge_id : string)
    (puzzle_state : option (list Z)) (now : datetime) (st : state) : response * state :=
  let key := "slider_" +:+ challenge_id in
  let key_part := session st !! key in
  if session_falsy key_part then (Ok invalid_session, st)
  else match key_part with
  | Some (SKeyPart key_part) =>
      let puzzle_state := default [] puzzle_state in
      if verify_slider_solution puzzle_state then
        (Ok (list_to_map
               [ ("success", PBool true);
                 ("revealed_part", PStr key_part);
                 ("message", PStr ("Key part revealed: " +:+ key_part)) ]),
         complete user challenge_id "slider" key_part key now st)
      else
        (Ok (list_to_map
               [ ("success", PBool false); ("message", PStr "Puzzle not solved yet!") ]),
         st)
  | _ => (Raise TypeError, st)
  end.

Definition scramble_submit (user : Z) (challenge_id : string) (answer : option string)
    (now : datetime) (st : state) : response * state :=
  let key := "scramble_" +:+ challenge_id in
  let scramble_data := session st !! key in
  if session_falsy scramble_data then (Ok invalid_session, st)
  else match scramble_data with
  | Some (SScramble w key_part) =>
      let answer := default EmptyString answer in
      if verify_scramble answer w then
        (Ok (list_to_map
               [ ("success", PBool true);
                 ("revealed_part", PStr key_part);
                 ("word", PStr w);
                 ("message", PStr ("Correct! Key part: " +:+ key_part)) ]),
         complete user challenge_id "scramble" key_part key now st)
      else
        (Ok (list_to_map
               [ ("success", PBool false); ("message", PStr "Incorrect! Try again.") ]),
         st)
  | Some (SQuiz _ _) => (Raise KeyError, st)
  | _ => (Raise TypeError, st)
  end.

(** ** routes/minigames.py: the key of a challenge *)

(** [c in s] for a one-character string [c]. *)
Fixpoint contains_char (c : ascii) (s : string) : bool :=
  match s with
  | EmptyString => false
  | String x s' => Ascii.eqb x c || contains_char c s'
  end.

(** [s.split(c, maxsplit)] for a one-character separator [c]: at most
    [maxsplit] cuts, from the left; the last piece keeps the separators that
    remain. *)
Fixpoint split_char (c : ascii) (maxsplit : nat) (s : string) : list string :=
  match s with
  | EmptyString => [EmptyString]
  | String x s' =>
      if Ascii.eqb x c then
        match maxsplit with
        | O => [s]
        | S m => EmptyString :: split_char c m s'
        end
      else
        match split_char c maxsplit s' with
        | [] => [String x EmptyString]
        | piece :: pieces => String x piece :: pieces
        end
  end.

(** The table [challenges]. *)
Definition challenges := list Challenge.t.

(** [query(Challenge).filter_by(id=challenge_id, is_active=True).first()] *)
Definition active_challenge (challenge_id : string) (tbl : challenges) : option Challenge.t :=
  List.find
    (fun c => String.eqb (Challenge.id c) challenge_id
              && match Challenge.is_active c with Some true => true | _ => false end)
    tbl.

(** [encrypted_msg[:16] if encrypted_msg else "UNKNOWNKEY123456"] *)
Definition fallback_key (encrypted_msg : string) : string :=
  if str_falsy encrypted_msg then "UNKNOWNKEY123456" else slice encrypted_msg 0 16.

(** [get_challenge_key]: [None] is Python's [None]. *)
Definition get_challenge_key (challenge_id : string) (tbl : challenges) : option string :=
  match active_challenge challenge_id tbl with
  | None => None
  | Some challenge =>
      let encrypted_msg := Challenge.encrypted_message challenge in
      if contains_char ":" encrypted_msg then
        let parts := split_char ":" 2 encrypted_msg in
        if (2 <=? List.length parts)%nat then Some (nth 1 parts EmptyString)
        else Some (fallback_key encrypted_msg)
      else Some (fallback_key encrypted_msg)
  end.

(** ** Python's [random.sample] and the quiz generator *)

Inductive value_error : Set := ValueError.

(** The loop of [sample] over a pool: for [i] in [range(k)] it draws
    [j = randbelow(n - i)], takes [pool[j]] and moves [pool[n - i - 1]]
    into the vacancy.  [n] is the number of places of the pool still in
    play. *)
Fixpoint sample_pool {A : Type} (k n : nat) (pool : list A) (d : A) (g : rng)
    : list A * rng :=
  match k with
  | O => ([], g)
  | S k' =>
      let '(j, g') := randbelow n g in
      let picked := nth j pool d in
      let pool' := <[j := nth (n - 1) pool d]> pool in
      let '(rest, g'') := sample_pool k' (n - 1) pool' d g' in
      (picked :: rest, g'')
  end.

(** [random.sample(population, k)] of CPython's [random.py] for a population
    of at most 21 elements, where it selects from a pool (a larger
    population is sampled by another loop): it raises [ValueError] unless
    [0 <= k <= len(population)]. *)
Definition sample {A : Type} (population : list A) (k : Z) (d : A) (g : rng)
    : value_error + list A * rng :=
  let n := List.length population in
  if (0 <=? k) && (k <=? Z.of_nat n)
  then inr (sample_pool (Z.to_nat k) n population d g)
  else inl ValueError.

(** [get_quiz_questions]: the loop over [selected] rebinds its own variable
    and changes nothing. *)
Definition get_quiz_questions (count : Z) (g : rng)
    : value_error + list quiz_question * rng :=
  sample QUIZ_QUESTIONS (Z.min count (Z.of_nat (List.length QUIZ_QUESTIONS)))
    (mkQuestion EmptyString [] 0) g.

(** ** core/challenges/minigames.py: the slider generator *)

(** [l.index(x)]: the place of the first [x]; [None] where Python raises
    [ValueError]. *)
Fixpoint index_of (x : Z) (l : list Z) : option nat :=
  match l with
  | [] => None
  | y :: l' => if y =? x then Some O else option_map S (index_of x l')
  end.

(** The places the empty cell at [empty_idx] can go: up, down, left, right,
    in the order the source appends them. *)
Definition slider_moves (empty_idx : nat) : list nat :=
  ((if 3 <=? empty_idx then [empty_idx - 3] else [])
   ++ (if empty_idx <? 6 then [empty_idx + 3] else [])
   ++ (if 0 <? empty_idx mod 3 then [empty_idx - 1] else [])
   ++ (if empty_idx mod 3 <? 2 then [empty_idx + 1] else []))%nat.

(** The loop [for _ in range(count)] of [generate_slider_puzzle]. *)
Fixpoint slide_loop (count : nat) (puzzle : list Z) (g : rng)
    : value_error + list Z * rng :=
  match count with
  | O => inr (puzzle, g)
  | S count' =>
      match index_of 0 puzzle with
      | None => inl ValueError
      | Some empty_idx =>
          let moves := slider_moves empty_idx in
          let '(swap_idx, g') := choice moves O g in
          slide_loop count' (exchange puzzle empty_idx swap_idx) g'
      end
  end.

Record slider_data : Type := mkSlider {
  puzzle : list Z;
  solution : list Z;
  puzzle_key_part : string
}.

Definition generate_slider_puzzle (key_part : string) (g : rng)
    : value_error + slider_data * rng :=
  let solution := range2 1 9 ++ [0] in
  match slide_loop 100 solution g with
  | inl e => inl e
  | inr (puzzle, g') =>
      inr ({| puzzle := puzzle; solution := solution; puzzle_key_part := key_part |}, g')
  end.

(** ** core/challenges/minigames.py: the wheel and the memory cards *)

Record segment : Type := mkSegment {
  char : ascii;
  is_correct : bool
}.

(** [string.ascii_uppercase] and [string.digits] *)
Definition ascii_uppercase : string := "ABCDEFGHIJKLMNOPQRSTUVWXYZ".
Definition digits : string := "0123456789".

(** The loop [for _ in range(decoy_count)] of [generate_wheel_segments]. *)
Fixpoint add_decoys (count : nat) (all_chars : list ascii) (segments : list segment)
    (g : rng) : list segment * rng :=
  match count with
  | O => (segments, g)
  | S count' =>
      let '(decoy, g') := choice all_chars "000"%char g in
      add_decoys count' all_chars
        (segments ++ [ {| char := decoy; is_correct := false |} ]) g'
  end.

(** [generate_wheel_segments], for a key part of ASCII characters (for
    which [char.upper()] is one character). *)
Definition generate_wheel_segments (key_part : string) (g : rng) : list segment * rng :=
  let correct_chars := list_ascii_of_string key_part in
  let all_chars := list_ascii_of_string (ascii_uppercase +:+ digits) in
  let decoy_count := Z.max (8 - Z.of_nat (List.length correct_chars)) 4 in
  let segments :=
    fold_left (fun segments c => segments ++ [ {| char := upper_char c; is_correct := true |} ])
      correct_chars [] in
  let '(segments, g1) := add_decoys (Z.to_nat decoy_count) all_chars segments g in
  shuffle segments g1.

(** The loop [while j in selected: j = randbelow(n)] of [sample]; [None]
    when the fuel is spent before a fresh place is drawn. *)
Fixpoint draw_fresh (fuel : nat) (n : nat) (selected : gset nat) (j : nat) (g : rng)
    : option (nat * rng) :=
  match fuel with
  | O => None
  | S fuel' =>
      if decide (j ∈ selected) then
        let '(j', g') := randbelow n g in draw_fresh fuel' n selected j' g'
      else Some (j, g)
  end.

(** The loop of [sample] over a set of selected places. *)
Fixpoint sample_selected {A : Type} (fuel : nat) (k n : nat) (population : list A)
    (selected : gset nat) (d : A) (g : rng) : option (list A * rng) :=
  match k with
  | O => Some ([], g)
  | S k' =>
      let '(j, g1) := randbelow n g in
      match draw_fresh fuel n selected j g1 with
      | None => None
      | Some (j, g2) =>
          match sample_selected fuel k' n population ({[ j ]} ∪ selected) d g2 with
          | None => None
          | Some (rest, g3) => Some (nth j population d :: rest, g3)
          end
      end
  end.

(** [random.sample(population, k)] for a population of more than 21
    elements and [k <= 5], where CPython's [sample] keeps a set of the
    places selected and redraws a place already taken. *)
Definition sample_large {A : Type} (fuel : nat) (population : list A) (k : Z) (d : A)
    (g : rng) : option (value_error + list A * rng) :=
  let n := List.length population in
  if (0 <=? k) && (k <=? Z.of_nat n) then
    match sample_selected fuel (Z.to_nat k) n population ∅ d g with
    | None => None
    | Some r => Some (inr r)
    end
  else Some (inl ValueError).

(** A memory card; [is_decoy] is [None] on the cards that have no such
    entry. *)
Record card : Type := mkCard {
  card_id : string;
  card_value : ascii;
  pair_id : Z;
  is_decoy : option bool
}.

(** The two cards of pair [i]. *)
Definition card_pair (i : Z) (c : ascii) (decoy : option bool) : list card :=
  [ {| card_id := str_of_int i +:+ "a"; card_value := c; pair_id := i; is_decoy := decoy |};
    {| card_id := str_of_int i +:+ "b"; card_value := c; pair_id := i; is_decoy := decoy |} ].

(** [generate_memory_cards]: [None] while the sampling loop runs, [inl] when
    [sample] raises. *)
Definition generate_memory_cards (fuel : nat) (key_part : string) (g : rng)
    : option (value_error + list card * rng) :=
  let chars := list_ascii_of_string (upper key_part) in
  let cards :=
    fold_left (fun cards ic => let '(i, c) := ic in cards ++ card_pair i c None)
      (enumerate chars) [] in
  match sample_large fuel (list_ascii_of_string ascii_uppercase)
          (Z.min 3 (26 - Z.of_nat (List.length chars))) "000"%char g with
  | None => None
  | Some (inl e) => Some (inl e)
  | Some (inr (decoys, g1)) =>
      let cards :=
        fold_left
          (fun cards ic =>
             let '(i, c) := ic in
             let idx := Z.of_nat (List.length chars) + i in
             cards ++ card_pair idx c (Some true))
          (enumerate decoys) cards in
      Some (inr (shuffle cards g1))
  end.

(** ** routes/minigames.py: the pages *)

(** What a page route returns: a redirect to an endpoint (with the challenge
    id for the hub), or a rendered template with its context. *)
Inductive view : Type :=
  | Redirect (endpoint : string) (challenge_id : option string)
  | HubPage (challenge : Challenge.t) (key_parts : list KeyPart) (revealed_key : string)
      (progress : gmap string progress_entry)
  | WheelPage (challenge : Challenge.t) (segments : list segment) (key_part_length : Z)
  | QuizPage (challenge : Challenge.t) (questions : list quiz_question)
  | MemoryPage (challenge : Challenge.t) (cards : list card)
  | SliderPage (challenge : Challenge.t) (puzzle : list Z)
  | ScramblePage (challenge : Challenge.t) (scrambled : string) (hint : string).

(** The view with the messages given to [flash], each with its category.
    (Flask keeps them under a session key of its own, which no route here
    reads; they are kept beside the view.) *)
Record reply : Type := mkReply {
  page : view;
  flashed : list (string * string)
}.

(** A page route ends in a reply, the state and the generator it leaves;
    [None] while a loop of a generator still runs, [inl] when one raises. *)
Definition served := option (value_error + reply * state * rng).

Definition not_found (st : state) (g : rng) : served :=
  Some (inr ({| page := Redirect "list_challenges" None;
                flashed := [("Challenge not found.", "error")] |}, st, g)).

Definition to_hub (challenge_id message category : string) (st : state) (g : rng) : served :=
  Some (inr ({| page := Redirect "minigames.minigames_hub" (Some challenge_id);
                flashed := [(message, category)] |}, st, g)).

(** [key_reveal_manager.split_key(key)]: the part count defaults to 5, for
    which [split_key] cannot divide by zero; a key of [None] is falsy and
    gives no parts. *)
Definition split_key_default (key : option string) : list KeyPart :=
  match key with
  | None => []
  | Some k => match split_key k 5 with Ok parts => parts | Raise _ => [] end
  end.

(** [next((p for p in key_parts if p['game_type'] == game), None)] *)
Definition part_of (game : string) (key_parts : list KeyPart) : option KeyPart :=
  List.find (fun p => String.eqb (game_type p) game) key_parts.

(** The loop of [minigames_hub] over the parts, which updates them in
    place. *)
Definition mark_revealed (progress : gmap string progress_entry) (part : KeyPart) : KeyPart :=
  match progress !! game_type part with
  | Some e =>
      if completed e then
        {| index := index part; value := entry_revealed_part e;
           game_type := game_type part; revealed := true |}
      else part
  | None => part
  end.

Definition minigames_hub (tbl : challenges) (user : Z) (challenge_id : string)
    (st : state) : reply :=
  match active_challenge challenge_id tbl with
  | None => {| page := Redirect "list_challenges" None;
               flashed := [("Challenge not found.", "error")] |}
  | Some challenge =>
      let key := get_challenge_key challenge_id tbl in
      let key_parts := split_key_default key in
      let progress := get_user_progress user challenge_id (db st) in
      let key_parts := map (mark_revealed progress) key_parts in
      let revealed_key := get_revealed_key user challenge_id key_parts (db st) in
      {| page := HubPage challenge key_parts revealed_key progress; flashed := [] |}
  end.

Definition wheel_spin (tbl : challenges) (user : Z) (challenge_id : string)
    (st : state) (g : rng) : served :=
  match active_challenge challenge_id tbl with
  | None => not_found st g
  | Some challenge =>
      let key := get_challenge_key challenge_id tbl in
      let key_parts := split_key_default key in
      match part_of "wheel" key_parts with
      | None => to_hub challenge_id "Wheel game not available for this challenge."
                  "warning" st g
      | Some wheel_part =>
          let progress := get_user_progress user challenge_id (db st) in
          if is_completed progress "wheel" then
            to_hub challenge_id ("Already completed! Key part: " +:+ value wheel_part)
              "success" st g
          else
            let '(segments, g') := generate_wheel_segments (value wheel_part) g in
            Some (inr ({| page := WheelPage challenge segments (len (value wheel_part));
                          flashed := [] |},
                       {| db := db st;
                          session := <[ "wheel_" +:+ challenge_id
                                        := SKeyPart (value wheel_part) ]> (session st) |},
                       g'))
      end
  end.

Definition quiz_game (tbl : challenges) (user : Z) (challenge_id : string)
    (st : state) (g : rng) : served :=
  match active_challenge challenge_id tbl with
  | None => not_found st g
  | Some challenge =>
      let key := get_challenge_key challenge_id tbl in
      let key_parts := split_key_default key in
      match part_of "quiz" key_parts with
      | None => to_hub challenge_id "Quiz game not available for this challenge."
                  "warning" st g
      | Some quiz_part =>
          let progress := get_user_progress user challenge_id (db st) in
          if is_completed progress "quiz" then
            to_hub challenge_id ("Already completed! Key part: " +:+ value quiz_part)
              "success" st g
          else
            match get_quiz_questions 3 g with
            | inl e => Some (inl e)
            | inr (questions, g') =>
                Some (inr ({| page := QuizPage challenge questions; flashed := [] |},
                           {| db := db st;
                              session := <[ "quiz_" +:+ challenge_id
                                            := SQuiz questions (value quiz_part) ]>
                                           (session st) |},
                           g'))
            end
      end
  end.

Definition memory_game (fuel : nat) (tbl : challenges) (user : Z) (challenge_id : string)
    (st : state) (g : rng) : served :=
  match active_challenge challenge_id tbl with
  | None => not_found st g
  | Some challenge =>
      let key := get_challenge_key challenge_id tbl in
      let key_parts := split_key_default key in
      match part_of "memory" key_parts with
      | None => to_hub challenge_id "Memory game not available." "warning" st g
      | Some memory_part =>
          let progress := get_user_progress user challenge_id (db st) in
          if is_completed progress "memory" then
            to_hub challenge_id ("Already completed! Key part: " +:+ value memory_part)
              "success" st g
          else
            match generate_memory_cards fuel (value memory_part) g with
            | None => None
            | Some (inl e) => Some (inl e)
            | Some (inr (cards, g')) =>
                Some (inr ({| page := MemoryPage challenge cards; flashed := [] |},
                           {| db := db st;
                              session := <[ "memory_" +:+ challenge_id
                                            := SKeyPart (value memory_part) ]>
                                           (session st) |},
                           g'))
            end
      end
  end.

Definition slider_puzzle (tbl : challenges) (user : Z) (challenge_id : string)
    (st : state) (g : rng) : served :=
  match active_challenge challenge_id tbl with
  | None => not_found st g
  | Some challenge =>
      let key := get_challenge_key challenge_id tbl in
      let key_parts := split_key_default key in
      match part_of "slider" key_parts with
      | None => to_hub challenge_id "Slider game not available." "warning" st g
      | Some slider_part =>
          let progress := get_user_progress user challenge_id (db st) in
          if is_completed progress "slider" then
            to_hub challenge_id ("Already completed! Key part: " +:+ value slider_part)
              "success" st g
          else
            match generate_slider_puzzle (value slider_part) g with
            | inl e => Some (inl e)
            | inr (puzzle_data, g') =>
                Some (inr ({| page := SliderPage challenge (puzzle puzzle_data);
                              flashed := [] |},
                           {| db := db st;
                              session := <[ "slider_" +:+ challenge_id
                                            := SKeyPart (value slider_part) ]>
                                           (session st) |},
                           g'))
            end
      end
  end.

Definition scramble_game (fuel : nat) (tbl : challenges) (user : Z) (challenge_id : string)
    (st : state) (g : rng) : served :=
  match active_challenge challenge_id tbl with
  | None => not_found st g
  | Some challenge =>
      let key := get_challenge_key challenge_id tbl in
      let key_parts := split_key_default key in
      match part_of "scramble" key_parts with
      | None => to_hub challenge_id "Scramble game not available." "warning" st g
      | Some scramble_part =>
          let progress := get_user_progress user challenge_id (db st) in
          if is_completed progress "scramble" then
            to_hub challenge_id ("Already completed! Key part: " +:+ value scramble_part)
              "success" st g
          else
            match generate_scramble fuel g with
            | None => None
            | Some (scramble_data, g') =>
                Some (inr ({| page := ScramblePage challenge (scrambled scramble_data)
                                        (hint scramble_data);
                              flashed := [] |},
                           {| db := db st;
                              session := <[ "scramble_" +:+ challenge_id
                                            := SScramble (word scramble_data)
                                                 (value scramble_part) ]>
                                           (session st) |},
                           g'))
            end
      end
  end.

(** ** Specification-side definitions *)

(** The size the splitter computes for loop index [i]. *)
Definition part_size (base_size remainder i : Z) : Z :=
  base_size + (if i <? remainder then 1 else 0).

(** The parts appended by the loop over the indices [ixs], from [start]. *)
Fixpoint parts_from (key : string) (base_size remainder : Z) (ixs : list Z) (start : Z)
    : list KeyPart :=
  match ixs with
  | [] => []
  | i :: ixs' =>
      let size := part_size base_size remainder i in
      if size >? 0 then
        {| index := i; value := slice key start (start + size);
           game_type := minigame_type_at i; revealed := false |}
        :: parts_from key base_size remainder ixs' (start + size)
      else parts_from key base_size remainder ixs' start
  end.

(** The number of characters the loop over [ixs] consumes. *)
Fixpoint consumed (base_size remainder : Z) (ixs : list Z) : Z :=
  match ixs with
  | [] => 0
  | i :: ixs' => Z.max 0 (part_size base_size remainder i) + consumed base_size remainder ixs'
  end.

(** The rows of [user] and [challenge] whose game is [game]. *)
Definition rows_of (user : Z) (challenge : string) (game : string)
    (db : MinigameProgress.table) : list MinigameProgress.t :=
  List.filter
    (fun r => MinigameProgress.row_of user challenge r
              && String.eqb (MinigameProgress.minigame_type r) game) db.

(** What the masked key shows for one part: its value when the part's game
    is recorded completed, else as many stars. *)
Definition shown (user : Z) (challenge : string) (db : MinigameProgress.table)
    (part : KeyPart) : string :=
  if MinigameProgress.has_completed user challenge (game_type part) db
  then value part
  else repeat_char "*" (String.length (value part)).

(** Quiz scoring in the words of the specification: index [i] of the served
    question list earns a point when [answers[i]] exists and equals the
    stored correct index of question [i]. *)
Definition earns_point (questions : list quiz_question) (answers : list Z) (i : nat) : bool :=
  match questions !! i, answers !! i with
  | Some q, Some a => a =? answer q
  | _, _ => false
  end.

Definition points (questions : list quiz_question) (answers : list Z) : nat :=
  List.length (List.filter (earns_point questions answers) (seq 0 (List.length questions))).

(** A tape on which the scramble loop never ends: it chooses the word at
    index 7 and then makes every [shuffle] draw [j = i], which exchanges
    nothing. *)
Definition idle_tape : rng :=
  fun k => match k with O => 7%nat | S k' => (6 - k' mod 6)%nat end.

(** The progress tables that sequential calls of [mark_game_completed]
    build from the empty table. *)
Inductive ledger : MinigameProgress.table -> Prop :=
  | ledger_empty : ledger []
  | ledger_mark (db : MinigameProgress.table) (user : Z) (challenge game revealed : string)
      (i : Z) (now : datetime) :
      ledger db -> ledger (mark_game_completed user challenge game revealed i now db).

(** Where the part of loop index [i] starts in the key. *)
Definition part_offset (base_size remainder i : Z) : Z :=
  i * base_size + Z.min i remainder.

(** Two cells of the 3 by 3 board are neighbours when they are next to each
    other in a row or in a column. *)
Definition neighbours (a b : nat) : Prop :=
  (a < 9)%nat /\ (b < 9)%nat
  /\ ((a / 3 = b / 3 /\ (a = b + 1 \/ b = a + 1))
      \/ (a mod 3 = b mod 3 /\ (a = b + 3 \/ b = a + 3)))%nat.

(** A legal slide: the tile of a neighbouring cell moves into the empty
    cell. *)
Definition slide (before after : list Z) : Prop :=
  exists empty_idx tile_idx,
    index_of 0 before = Some empty_idx
    /\ neighbours empty_idx tile_idx
    /\ after = exchange before empty_idx tile_idx.

(** A string of whitespace only. *)
Fixpoint blank (s : string) : bool :=
  match s with
  | EmptyString => true
  | String c s' => isspace c && blank s'
  end.

(** A character that [upper] and [strip] leave alone: no whitespace, no
    lower-case letter. *)
Definition plain_upper (c : ascii) : bool :=
  negb (isspace c) && Ascii.eqb (upper_char c) c.



(** * Properties *)

(** ** Strings *)

Section Strings.

Lemma append_cons (c : ascii) (s t : string) : String c s +:+ t = String c (s +:+ t).
Proof. reflexivity. Qed.

Lemma append_empty_r (s : string) : s +:+ EmptyString = s.
Proof.
  induction s as [|c s IH]; [reflexivity|]. rewrite append_cons. now rewrite IH.
Qed.

Lemma append_assoc (a b c : string) : (a +:+ b) +:+ c = a +:+ (b +:+ c).
Proof.
  induction a as [|x a IH]; [reflexivity|]. rewrite !append_cons. now rewrite IH.
Qed.

Lemma length_append (a b : string) :
  String.length (a +:+ b) = (String.length a + String.length b)%nat.
Proof.
  induction a as [|x a IH]; [reflexivity|]. rewrite append_cons. simpl. now rewrite IH.
Qed.

Lemma length_repeat_char (c : ascii) (n : nat) : String.length (repeat_char c n) = n.
Proof. induction n as [|n IH]; simpl; [reflexivity | now rewrite IH]. Qed.

Lemma repeat_char_add (c : ascii) (n m : nat) :
  repeat_char c n +:+ repeat_char c m = repeat_char c (n + m).
Proof.
  induction n as [|n IH]; [reflexivity|]. simpl. rewrite append_cons. now rewrite IH.
Qed.

Lemma substring_all (s : string) (m : nat) :
  (String.length s <= m)%nat -> String.substring 0 m s = s.
Proof.
  revert m. induction s as [|c s IH]; intros [|m] H; simpl in *; try reflexivity; try lia.
  f_equal. apply IH. lia.
Qed.

Lemma substring_empty (n : nat) (s : string) : String.substring n 0 s = EmptyString.
Proof.
  revert n. induction s as [|c s IH]; intros [|n]; simpl; try reflexivity. apply IH.
Qed.

(** Two adjacent slices make one. *)
Lemma substring_adjacent (s : string) (a b c : nat) :
  String.substring a b s +:+ String.substring (a + b) c s = String.substring a (b + c) s.
Proof.
  revert a b. induction s as [|x s IH]; intros a b.
  - destruct a, b, c; reflexivity.
  - destruct a as [|a].
    + destruct b as [|b]; simpl.
      * reflexivity.
      * rewrite append_cons. f_equal. apply (IH O b).
    + simpl. apply IH.
Qed.

Lemma length_substring (s : string) (a b : nat) :
  (a + b <= String.length s)%nat -> String.length (String.substring a b s) = b.
Proof.
  revert a b. induction s as [|x s IH]; intros a b H; simpl in H.
  - assert (a = O) by lia. assert (b = O) by lia. subst. reflexivity.
  - destruct a as [|a].
    + destruct b as [|b]; simpl; [reflexivity|]. f_equal. apply (IH O b). lia.
    + simpl. apply IH. lia.
Qed.

Lemma slice_adjacent (s : string) (a b c : Z) :
  0 <= a <= b -> b <= c -> slice s a b +:+ slice s b c = slice s a c.
Proof.
  intros Hab Hbc. unfold slice.
  replace (Z.to_nat b) with (Z.to_nat a + Z.to_nat (b - a))%nat by lia.
  rewrite substring_adjacent. f_equal. lia.
Qed.

Lemma slice_empty (s : string) (a : Z) : slice s a a = EmptyString.
Proof. unfold slice. rewrite Z.sub_diag. apply substring_empty. Qed.

Lemma slice_all (s : string) : slice s 0 (len s) = s.
Proof. unfold slice, len. apply substring_all. lia. Qed.

Lemma len_slice (s : string) (a b : Z) :
  0 <= a <= b -> b <= len s -> len (slice s a b) = b - a.
Proof.
  intros Hab Hb. unfold slice, len in *. rewrite length_substring; lia.
Qed.

Lemma str_falsy_spec (s : string) : str_falsy s = true <-> s = EmptyString.
Proof. destruct s; simpl; split; congruence. Qed.

End Strings.

(** ** The key splitter *)

Section KeySplitter.

Variable key : string.
Variables base_size remainder : Z.

Local Abbreviation step := (split_step key base_size remainder).
Local Abbreviation size := (part_size base_size remainder).
Local Abbreviation new_parts := (parts_from key base_size remainder).
Local Abbreviation eaten := (consumed base_size remainder).

(** The loop appends [parts_from] and advances [start] by [consumed]. *)
Lemma split_loop (ixs : list Z) (parts : list KeyPart) (start : Z) :
  fold_left step ixs (parts, start) = (parts ++ new_parts ixs start, start + eaten ixs).
Proof.
  revert parts start. induction ixs as [|i ixs IH]; intros parts start; simpl.
  - now rewrite app_nil_r, Z.add_0_r.
  - fold (size i). destruct (size i >? 0) eqn:Hs.
    + rewrite IH, <- app_assoc. simpl. f_equal. lia.
    + rewrite IH. f_equal. lia.
Qed.

Lemma consumed_nonneg (ixs : list Z) : 0 <= eaten ixs.
Proof. induction ixs as [|i ixs IH]; simpl; lia. Qed.

Lemma consumed_app (a b : list Z) : eaten (a ++ b) = eaten a + eaten b.
Proof. induction a as [|i a IH]; simpl; lia. Qed.

(** The new parts are adjacent slices: joined, they are the slice of the
    key that the loop has consumed. *)
Lemma parts_from_join (ixs : list Z) (start : Z) :
  0 <= start ->
  join (map value (new_parts ixs start)) = slice key start (start + eaten ixs).
Proof.
  revert start. induction ixs as [|i ixs IH]; intros start Hs; simpl.
  - rewrite Z.add_0_r. symmetry. apply slice_empty.
  - pose proof (consumed_nonneg ixs) as Hc.
    destruct (size i >? 0) eqn:Hsz.
    + simpl. rewrite IH by lia.
      rewrite slice_adjacent by lia. f_equal. lia.
    + rewrite IH by lia. f_equal. lia.
Qed.

(** A part is kept exactly for the indices whose size is positive. *)
Lemma parts_from_index (ixs : list Z) (start : Z) :
  map index (new_parts ixs start) = List.filter (fun i => size i >? 0) ixs.
Proof.
  revert start. induction ixs as [|i ixs IH]; intros start; simpl; [reflexivity|].
  destruct (size i >? 0); simpl; now rewrite IH.
Qed.

(** Every part carries the game of its loop index, unrevealed, and, while
    the loop stays inside the key, a value of the computed size. *)
Lemma parts_from_shape (ixs : list Z) (start : Z) :
  0 <= start -> start + eaten ixs <= len key ->
  Forall (fun p => len (value p) = size (index p)
                   /\ game_type p = minigame_type_at (index p)
                   /\ revealed p = false)
         (new_parts ixs start).
Proof.
  revert start. induction ixs as [|i ixs IH]; intros start Hs Hle; simpl; [constructor|].
  simpl in Hle. pose proof (consumed_nonneg ixs) as Hc.
  destruct (size i >? 0) eqn:Hsz.
  - constructor.
    + simpl. split; [|split; reflexivity].
      rewrite len_slice by lia. lia.
    + apply IH; lia.
  - apply IH; lia.
Qed.

Lemma parts_from_game (ixs : list Z) (start : Z) :
  Forall (fun p => In (game_type p) minigame_types) (new_parts ixs start).
Proof.
  revert start. induction ixs as [|i ixs IH]; intros start; simpl; [constructor|].
  destruct (size i >? 0); [constructor|]; auto.
  simpl. unfold minigame_type_at.
  assert (H : 0 <= i mod Z.of_nat (List.length minigame_types) < 5)
    by (apply Z.mod_pos_bound; simpl; lia).
  set (k := i mod _) in *.
  assert (Hk : k = 0 \/ k = 1 \/ k = 2 \/ k = 3 \/ k = 4) by lia.
  destruct Hk as [-> | [-> | [-> | [-> | ->]]]]; simpl; tauto.
Qed.

(** What [range(k)] consumes, for sizes that are not negative. *)
Lemma consumed_range (k : nat) :
  0 <= base_size -> 0 <= remainder ->
  eaten (range (Z.of_nat k)) = Z.of_nat k * base_size + Z.min (Z.of_nat k) remainder.
Proof.
  intros Hb Hr. induction k as [|k IH].
  - simpl. lia.
  - unfold range in *. rewrite Nat2Z.id in *.
    rewrite seq_S, map_app, consumed_app, IH. simpl.
    unfold part_size. destruct (Z.of_nat k <? remainder) eqn:Hlt; lia.
Qed.

End KeySplitter.

Lemma range_bounds (n i : Z) : In i (range n) <-> 0 <= i < n.
Proof.
  unfold range. rewrite in_map_iff. split.
  - intros [k [<- Hk]]. apply in_seq in Hk. lia.
  - intros H. exists (Z.to_nat i). split; [lia|]. apply in_seq. lia.
Qed.

Lemma parts_from_none (key : string) (b r : Z) (ixs : list Z) (start : Z) :
  Forall (fun i => part_size b r i <= 0) ixs -> parts_from key b r ixs start = [].
Proof.
  revert start. induction ixs as [|i ixs IH]; intros start H; simpl; [reflexivity|].
  inversion H as [|? ? Hi Hrest]; subst.
  destruct (part_size b r i >? 0) eqn:Hs; [lia|]. now apply IH.
Qed.

(** [split_key] in closed form, for a part count other than zero. *)
Lemma split_key_parts_from (key : string) (n : Z) :
  n <> 0 ->
  split_key key n =
  Ok (parts_from key (len key / n) (len key mod n) (range n) 0).
Proof.
  intros Hn. unfold split_key. destruct (str_falsy key) eqn:Hk.
  - apply str_falsy_spec in Hk. subst key. f_equal.
    unfold len. simpl String.length. change (Z.of_nat 0) with 0.
    rewrite Z.div_0_l, Zmod_0_l by exact Hn.
    symmetry. apply parts_from_none. apply List.Forall_forall.
    intros i Hi. apply range_bounds in Hi. unfold part_size.
    destruct (i <? 0) eqn:Hlt; lia.
  - destruct (n =? 0) eqn:Hz; [lia|].
    rewrite split_loop. reflexivity.
Qed.

(** A part count of zero divides by zero, a negative one runs no loop. *)
Lemma split_key_nonpositive (key : string) (n : Z) :
  key <> EmptyString ->
  split_key key 0 = Raise ZeroDivisionError /\ (n < 0 -> split_key key n = Ok []).
Proof.
  intros Hk. unfold split_key.
  destruct (str_falsy key) eqn:Hf; [apply str_falsy_spec in Hf; congruence|].
  split; [reflexivity|]. intros Hn.
  destruct (n =? 0) eqn:Hz; [lia|].
  unfold range. now replace (Z.to_nat n) with O by lia.
Qed.

(** With a positive part count the loop consumes the whole key. *)
Lemma consumed_all (key : string) (n : Z) :
  1 <= n -> consumed (len key / n) (len key mod n) (range n) = len key.
Proof.
  intros Hn.
  assert (Hlen : 0 <= len key) by (unfold len; lia).
  pose proof (Z.mod_pos_bound (len key) n ltac:(lia)) as Hr.
  pose proof (Z.div_pos (len key) n Hlen ltac:(lia)) as Hb.
  pose proof (Z.div_mod (len key) n ltac:(lia)) as Hdm.
  replace n with (Z.of_nat (Z.to_nat n)) at 3 by lia.
  rewrite consumed_range by lia. rewrite Z2Nat.id by lia. lia.
Qed.

Lemma split_key_join (key : string) (n : Z) (parts : list KeyPart) :
  1 <= n -> split_key key n = Ok parts -> join (map value parts) = key.
Proof.
  intros Hn H. rewrite split_key_parts_from in H by lia.
  injection H as <-. rewrite parts_from_join by lia.
  rewrite consumed_all by lia. apply slice_all.
Qed.

Lemma range_sorted (n : Z) : StronglySorted Z.lt (range n).
Proof.
  unfold range. generalize (Z.to_nat n) as k. intros k.
  generalize 0%nat as a. induction k as [|k IH]; intros a; simpl; constructor.
  - apply IH.
  - apply List.Forall_forall. intros x Hx. apply in_map_iff in Hx.
    destruct Hx as [y [<- Hy]]. apply in_seq in Hy. lia.
Qed.

Lemma filter_sorted (f : Z -> bool) (l : list Z) :
  StronglySorted Z.lt l -> StronglySorted Z.lt (List.filter f l).
Proof.
  induction 1 as [|x l Hs IH Hall]; simpl; [constructor|].
  destruct (f x); [|exact IH]. constructor; [exact IH|].
  apply List.Forall_forall. intros y Hy. apply filter_In in Hy.
  rewrite List.Forall_forall in Hall. apply Hall. tauto.
Qed.

(** C2: for a non-empty key [k] and a part count [n] from 1 to 8,
    [split_key k n] returns parts in increasing index order, and their
    values joined in that order are [k]: no character is skipped or
    duplicated. *)
Theorem split_key_roundtrip (k : string) (n : Z) :
  k <> EmptyString -> 1 <= n <= 8 ->
  exists parts,
    split_key k n = Ok parts
    /\ StronglySorted Z.lt (map index parts)
    /\ join (map value parts) = k.
Proof.
  intros _ Hn.
  exists (parts_from k (len k / n) (len k mod n) (range n) 0).
  assert (Hsplit := split_key_parts_from k n ltac:(lia)).
  split; [exact Hsplit|]. split.
  - rewrite parts_from_index. apply filter_sorted, range_sorted.
  - now apply (split_key_join k n); [lia|].
Qed.

Lemma split_key_roundtrip_witness :
  exists parts,
    split_key "SECRET12" 5 = Ok parts
    /\ StronglySorted Z.lt (map index parts)
    /\ join (map value parts) = "SECRET12"%string.
Proof. apply split_key_roundtrip; [discriminate | lia]. Defined.

Lemma minigame_type_at_cycle (i : Z) :
  minigame_type_at i = nth (Z.to_nat (i mod 5)) minigame_types EmptyString.
Proof. reflexivity. Qed.

(** C3: [split_key] returns the empty sequence for an empty key; otherwise,
    with [base = len(key) // n] and [r = len(key) % n], the returned parts
    are, in loop order, those of the loop indices whose computed size is
    positive; a part of loop index [i < r] has length [base + 1], a part of
    loop index [i >= r] has length [base], and each part carries the game
    type at place [i mod 5] of the cycle wheel, quiz, memory, slider,
    scramble. *)
Theorem split_key_partition (key : string) (n : Z) :
  split_key EmptyString n = Ok []
  /\ (key <> EmptyString -> n <> 0 ->
      let base := len key / n in
      let r := len key mod n in
      exists parts,
        split_key key n = Ok parts
        /\ map index parts
           = List.filter (fun i => (base + (if i <? r then 1 else 0)) >? 0) (range n)
        /\ Forall (fun p =>
                     (index p < r -> len (value p) = base + 1)
                     /\ (r <= index p -> len (value p) = base)
                     /\ game_type p
                        = nth (Z.to_nat (index p mod 5))
                              ["wheel"; "quiz"; "memory"; "slider"; "scramble"]%string
                              EmptyString)
                  parts).
Proof.
  split; [reflexivity|]. intros _ Hn base r.
  exists (parts_from key base r (range n) 0).
  split; [now apply split_key_parts_from|]. split; [apply parts_from_index|].
  assert (Hshape :
    Forall (fun p => len (value p) = part_size base r (index p)
                     /\ game_type p = minigame_type_at (index p)
                     /\ revealed p = false)
           (parts_from key base r (range n) 0)).
  { destruct (Z_lt_le_dec n 0) as [Hneg | Hpos].
    - unfold range. replace (Z.to_nat n) with O by lia. constructor.
    - apply parts_from_shape; [lia|].
      unfold base, r. rewrite consumed_all by lia. lia. }
  eapply List.Forall_impl; [|exact Hshape].
  intros p (Hlen & Hgame & _). unfold part_size in Hlen.
  repeat split.
  - intros Hlt. apply Z.ltb_lt in Hlt. now rewrite Hlt in Hlen.
  - intros Hge. apply Z.ltb_ge in Hge. rewrite Hge in Hlen. lia.
  - now rewrite Hgame, minigame_type_at_cycle.
Qed.

Lemma split_key_partition_witness :
  split_key EmptyString 5 = Ok []
  /\ exists parts,
       split_key "SECRET12" 5 = Ok parts
       /\ map index parts = [0; 1; 2; 3; 4]
       /\ Forall (fun p =>
                    (index p < 3 -> len (value p) = 2)
                    /\ (3 <= index p -> len (value p) = 1)
                    /\ game_type p
                       = nth (Z.to_nat (index p mod 5))
                             ["wheel"; "quiz"; "memory"; "slider"; "scramble"]%string
                             EmptyString)
                 parts.
Proof.
  destruct (split_key_partition "SECRET12" 5) as [Hempty Hparts].
  split; [exact Hempty|].
  apply Hparts; [discriminate | lia].
Defined.

(** ** The progress ledger and the revealed key *)

Section Progress.

Variable user : Z.
Variable challenge : string.

Local Abbreviation rows_of := (rows_of user challenge).
Local Abbreviation shown := (shown user challenge).

Lemma has_completed_rows (game : string) (db : MinigameProgress.table) :
  MinigameProgress.has_completed user challenge game db = true <-> rows_of game db <> [].
Proof.
  unfold MinigameProgress.has_completed, rows_of.
  destruct (List.filter _ db); split; congruence.
Qed.

Lemma has_completed_existsb (game : string) (db : MinigameProgress.table) :
  MinigameProgress.has_completed user challenge game db
  = existsb (fun r => String.eqb (MinigameProgress.minigame_type r) game)
            (MinigameProgress.get_user_progress user challenge db).
Proof.
  unfold MinigameProgress.has_completed, MinigameProgress.get_user_progress.
  induction db as [|r db IH]; simpl; [reflexivity|].
  destruct (MinigameProgress.row_of user challenge r); simpl; [|exact IH].
  destruct (String.eqb (MinigameProgress.minigame_type r) game); simpl;
    [reflexivity | exact IH].
Qed.

(** The dict built from the rows holds a game exactly when a row has it,
    and every entry says completed. *)
Lemma is_completed_fold (rows : list MinigameProgress.t)
    (m : gmap string progress_entry) (game : string) :
  is_completed
    (fold_left
       (fun res record =>
          <[ MinigameProgress.minigame_type record :=
               {| completed := true;
                  entry_revealed_part := MinigameProgress.revealed_part record;
                  entry_completed_at := MinigameProgress.completed_at record |} ]> res)
       rows m) game
  = is_completed m game
    || existsb (fun r => String.eqb (MinigameProgress.minigame_type r) game) rows.
Proof.
  revert m. induction rows as [|r rows IH]; intros m; simpl.
  - now rewrite orb_false_r.
  - rewrite IH. unfold is_completed at 1.
    destruct (String.eqb_spec (MinigameProgress.minigame_type r) game) as [-> | Hne].
    + rewrite lookup_insert_eq. simpl. now rewrite orb_true_r.
    + rewrite lookup_insert_ne by exact Hne. reflexivity.
Qed.

Lemma is_completed_has_completed (game : string) (db : MinigameProgress.table) :
  is_completed (get_user_progress user challenge db) game
  = MinigameProgress.has_completed user challenge game db.
Proof.
  unfold get_user_progress. rewrite is_completed_fold, has_completed_existsb.
  unfold is_completed. now rewrite lookup_empty.
Qed.

Lemma get_revealed_key_join (key_parts : list KeyPart) (db : MinigameProgress.table) :
  get_revealed_key user challenge key_parts db = join (map (shown db) key_parts).
Proof.
  unfold get_revealed_key.
  assert (H : forall acc,
    fold_left
      (fun res part =>
         if is_completed (get_user_progress user challenge db) (game_type part)
         then res +:+ value part
         else res +:+ repeat_char "*" (String.length (value part)))
      key_parts acc
    = acc +:+ join (map (shown db) key_parts)).
  { induction key_parts as [|p ps IH]; intros acc; simpl.
    - now rewrite append_empty_r.
    - rewrite IH, is_completed_has_completed. unfold shown at 2.
      destruct (MinigameProgress.has_completed user challenge (game_type p) db);
        now rewrite append_assoc. }
  now rewrite H.
Qed.

Lemma length_shown (db : MinigameProgress.table) (part : KeyPart) :
  String.length (shown db part) = String.length (value part).
Proof.
  unfold shown. destruct (MinigameProgress.has_completed _ _ _ _);
    [reflexivity | apply length_repeat_char].
Qed.

Lemma length_join (l : list string) :
  String.length (join l) = list_sum (map String.length l).
Proof.
  induction l as [|s l IH]; simpl; [reflexivity|].
  now rewrite length_append, IH.
Qed.

Lemma join_stars (l : list string) :
  join (map (fun s => repeat_char "*" (String.length s)) l)
  = repeat_char "*" (String.length (join l)).
Proof.
  induction l as [|s l IH]; simpl; [reflexivity|].
  now rewrite IH, repeat_char_add, length_append.
Qed.

End Progress.

(** C1: for the parts that [split_key] returns for a key (with a positive
    part count), [get_revealed_key] emits, part by part and in order, the
    part's value when the part's game type is recorded completed for the
    user and challenge, else as many stars; the output is as long as the sum
    of the part lengths, which is the length of the key; with no completed
    minigame it is all stars, and with the five game types completed it is
    the key. *)
Theorem get_revealed_key_masks (user : Z) (challenge key : string) (n : Z)
    (parts : list KeyPart) (db : MinigameProgress.table) :
  1 <= n -> split_key key n = Ok parts ->
  let out := get_revealed_key user challenge parts db in
  out = join (map (fun p =>
                     if MinigameProgress.has_completed user challenge (game_type p) db
                     then value p
                     else repeat_char "*" (String.length (value p))) parts)
  /\ String.length out = list_sum (map (fun p => String.length (value p)) parts)
  /\ String.length out = String.length key
  /\ (MinigameProgress.get_user_progress user challenge db = [] ->
      out = repeat_char "*" (String.length key))
  /\ ((forall g, In g minigame_types ->
                 MinigameProgress.has_completed user challenge g db = true) ->
      out = key).
Proof.
  intros Hn Hsplit out.
  assert (Hout : out = join (map (shown user challenge db) parts))
    by apply get_revealed_key_join.
  assert (Hkey : join (map value parts) = key) by (eapply split_key_join; eauto).
  assert (Hsum : String.length out
                 = list_sum (map (fun p => String.length (value p)) parts)).
  { rewrite Hout, length_join, map_map. f_equal.
    apply map_ext. intros p. apply length_shown. }
  split; [exact Hout|]. split; [exact Hsum|]. split; [|split].
  - rewrite Hsum, <- Hkey, length_join, map_map. reflexivity.
  - intros Hnone. rewrite Hout, <- Hkey, <- join_stars, map_map. f_equal.
    apply map_ext. intros p. unfold shown.
    now rewrite has_completed_existsb, Hnone.
  - intros Hall. rewrite Hout, <- Hkey. f_equal.
    apply map_ext_in. intros p Hp. unfold shown. rewrite Hall; [reflexivity|].
    rewrite split_key_parts_from in Hsplit by lia. injection Hsplit as <-.
    pose proof (parts_from_game key (len key / n) (len key mod n) (range n) 0) as Hg.
    rewrite List.Forall_forall in Hg. now apply Hg.
Qed.

Lemma get_revealed_key_masks_witness :
  let parts :=
    [ mkKeyPart 0 "SE" "wheel" false; mkKeyPart 1 "CR" "quiz" false;
      mkKeyPart 2 "ET" "memory" false; mkKeyPart 3 "1" "slider" false;
      mkKeyPart 4 "2" "scramble" false ] in
  let two :=
    [ MinigameProgress.mk 1 7 "aes_easy" "wheel" 0 "SE" (Some 100);
      MinigameProgress.mk 2 7 "aes_easy" "quiz" 0 "CR" (Some 200) ] in
  let five :=
    two ++
    [ MinigameProgress.mk 3 7 "aes_easy" "memory" 0 "ET" (Some 300);
      MinigameProgress.mk 4 7 "aes_easy" "slider" 0 "1" (Some 400);
      MinigameProgress.mk 5 7 "aes_easy" "scramble" 0 "2" (Some 500) ] in
  get_revealed_key 7 "aes_easy" parts two = "SECR****"%string
  /\ String.length (get_revealed_key 7 "aes_easy" parts two) = 8%nat
  /\ get_revealed_key 7 "aes_easy" parts [] = "********"%string
  /\ get_revealed_key 7 "aes_easy" parts five = "SECRET12"%string.
Proof.
  intros parts two five.
  destruct (get_revealed_key_masks 7 "aes_easy" "SECRET12" 5 parts two
              ltac:(lia) eq_refl) as (Hout & _ & Hlen & _).
  destruct (get_revealed_key_masks 7 "aes_easy" "SECRET12" 5 parts []
              ltac:(lia) eq_refl) as (_ & _ & _ & Hnone & _).
  destruct (get_revealed_key_masks 7 "aes_easy" "SECRET12" 5 parts five
              ltac:(lia) eq_refl) as (_ & _ & _ & _ & Hall).
  split; [exact Hout|]. split; [exact Hlen|]. split; [exact (Hnone eq_refl)|].
  apply Hall. intros g Hg. simpl in Hg.
  destruct Hg as [<- | [<- | [<- | [<- | [<- | []]]]]]; reflexivity.
Defined.

(** ** Idempotent completion *)

Section Completion.

Variable user : Z.
Variable challenge game : string.

Local Abbreviation has := (MinigameProgress.has_completed user challenge game).
Local Abbreviation mark := (mark_game_completed user challenge game).
Local Abbreviation rows := (rows_of user challenge game).

Lemma mark_noop (revealed : string) (i : Z) (now : datetime) (db : MinigameProgress.table) :
  has db = true -> mark revealed i now db = db.
Proof. intros H. unfold mark_game_completed. now rewrite H. Qed.

Lemma rows_app (a b : MinigameProgress.table) : rows (a ++ b) = rows a ++ rows b.
Proof. unfold rows_of. apply List.filter_app. Qed.

Lemma row_of_refl : forall r,
  MinigameProgress.user_id r = user -> MinigameProgress.challenge_id r = challenge ->
  MinigameProgress.row_of user challenge r = true.
Proof.
  intros r Hu Hc. unfold MinigameProgress.row_of.
  now rewrite Hu, Hc, Z.eqb_refl, String.eqb_refl.
Qed.

(** A first completion adds one row for the triple. *)
Lemma mark_fresh (revealed : string) (i : Z) (now : datetime) (db : MinigameProgress.table) :
  has db = false ->
  exists r, mark revealed i now db = db ++ [r]
            /\ rows (db ++ [r]) = [r]
            /\ MinigameProgress.part_index r = i
            /\ MinigameProgress.revealed_part r = revealed.
Proof.
  intros H. unfold mark_game_completed. rewrite H. simpl.
  eexists. split; [reflexivity|]. split; [|split; reflexivity].
  rewrite rows_app.
  assert (Hnil : rows db = []).
  { destruct (rows db) eqn:E; [reflexivity|].
    assert (has db = true) by (apply has_completed_rows; rewrite E; discriminate).
    congruence. }
  rewrite Hnil. unfold rows_of. simpl.
  rewrite row_of_refl by reflexivity. simpl. now rewrite String.eqb_refl.
Qed.

Lemma mark_has (revealed : string) (i : Z) (now : datetime) (db : MinigameProgress.table) :
  has (mark revealed i now db) = true.
Proof.
  destruct (has db) eqn:H.
  - now rewrite mark_noop.
  - destruct (mark_fresh revealed i now db H) as (r & -> & Hr & _).
    apply has_completed_rows. rewrite Hr. discriminate.
Qed.

(** After a call the triple has one row, if it had at most one before. *)
Lemma mark_one (revealed : string) (i : Z) (now : datetime) (db : MinigameProgress.table) :
  (List.length (rows db) <= 1)%nat ->
  List.length (rows (mark revealed i now db)) = 1%nat.
Proof.
  intros Hle. destruct (has db) eqn:H.
  - rewrite mark_noop by exact H.
    apply has_completed_rows in H. destruct (rows db) as [|? [|]]; simpl in *; try lia.
    congruence.
  - destruct (mark_fresh revealed i now db H) as (r & -> & -> & _). reflexivity.
Qed.

(** A sequence of calls for the triple, each with its own revealed part,
    part index and clock reading. *)
Lemma mark_many (calls : list (string * Z * datetime)) (db : MinigameProgress.table) :
  has db = true ->
  fold_left (fun d call => mark call.1.1 call.1.2 call.2 d) calls db = db.
Proof.
  intros H. induction calls as [|c calls IH]; simpl; [reflexivity|].
  now rewrite mark_noop.
Qed.

End Completion.

(** A row of another triple is not a row of this one. *)
Lemma rows_of_other (user user' : Z) (challenge game challenge' game' revealed : string)
    (i : Z) (now : datetime) (db : MinigameProgress.table) :
  (user', challenge', game') <> (user, challenge, game) ->
  rows_of user challenge game
    (mark_game_completed user' challenge' game' revealed i now db)
  = rows_of user challenge game db.
Proof.
  intros Hne. unfold mark_game_completed.
  destruct (MinigameProgress.has_completed user' challenge' game' db); [reflexivity|].
  simpl. rewrite rows_app. unfold rows_of at 2. simpl.
  unfold MinigameProgress.row_of. simpl.
  destruct (Z.eqb_spec user' user) as [-> | Hu]; simpl; [|apply app_nil_r].
  destruct (String.eqb_spec challenge' challenge) as [-> | Hc]; simpl; [|apply app_nil_r].
  destruct (String.eqb_spec game' game) as [-> | Hg]; simpl; [congruence | apply app_nil_r].
Qed.

(** Sequential calls never leave two rows for one triple. *)
Lemma ledger_unique (db : MinigameProgress.table) :
  ledger db ->
  forall user challenge game, (List.length (rows_of user challenge game db) <= 1)%nat.
Proof.
  induction 1 as [|db user' challenge' game' revealed i now Hdb IH];
    intros user challenge game; [simpl; lia|].
  destruct (decide ((user', challenge', game') = (user, challenge, game))) as [Heq | Hne].
  - injection Heq as -> -> ->. rewrite mark_one; [lia | apply IH].
  - rewrite rows_of_other by exact Hne. apply IH.
Qed.

(** C4: [mark_game_completed] is idempotent.  From a table that has a row
    for [(user, challenge, game)] a call leaves the table unchanged; a
    second call after a first changes nothing; and after any positive number
    of sequential calls for the triple, from a table with at most one row
    for it, the table has exactly one row for the triple. *)
Theorem mark_game_completed_idempotent (user : Z) (challenge game : string)
    (db : MinigameProgress.table) :
  (forall revealed i now,
      MinigameProgress.has_completed user challenge game db = true ->
      mark_game_completed user challenge game revealed i now db = db)
  /\ (forall revealed i now revealed' i' now',
         mark_game_completed user challenge game revealed' i' now'
           (mark_game_completed user challenge game revealed i now db)
         = mark_game_completed user challenge game revealed i now db)
  /\ (forall calls : list (string * Z * datetime),
         (List.length (rows_of user challenge game db) <= 1)%nat ->
         calls <> [] ->
         List.length
           (rows_of user challenge game
              (fold_left
                 (fun d call => mark_game_completed user challenge game
                                  call.1.1 call.1.2 call.2 d)
                 calls db))
         = 1%nat).
Proof.
  split; [|split].
  - intros revealed i now H. now apply mark_noop.
  - intros revealed i now revealed' i' now'. apply mark_noop, mark_has.
  - intros [|c calls] Hle Hne; [congruence|]. simpl.
    rewrite mark_many by apply mark_has. now apply mark_one.
Qed.

Lemma mark_game_completed_idempotent_witness :
  let db1 := mark_game_completed 7 "aes_easy" "quiz" "CR" 0 100 [] in
  mark_game_completed 7 "aes_easy" "quiz" "CR" 0 200 db1 = db1
  /\ List.length (rows_of 7 "aes_easy" "quiz"
                    (fold_left
                       (fun d call => mark_game_completed 7 "aes_easy" "quiz"
                                        call.1.1 call.1.2 call.2 d)
                       [("CR"%string, 0, 100); ("CR"%string, 0, 200); ("XX"%string, 1, 300)]
                       [])) = 1%nat.
Proof.
  intros db1. split.
  - apply (mark_game_completed_idempotent 7 "aes_easy" "quiz" db1). reflexivity.
  - apply (mark_game_completed_idempotent 7 "aes_easy" "quiz" []); [simpl; lia | discriminate].
Defined.

(** ** Challenge serialisation *)

(** C5: for every challenge and for both values of [exclude_flag],
    [to_dict] returns a dict whose ['flag'] entry is the stored flag; the
    argument has no effect on the dict. *)
Theorem to_dict_includes_flag (c : Challenge.t) (exclude_flag : bool) :
  Challenge.to_dict c exclude_flag !! "flag" = Some (PStr (Challenge.flag c))
  /\ Challenge.to_dict c true = Challenge.to_dict c false.
Proof.
  split; [|reflexivity].
  unfold Challenge.to_dict. simpl.
  repeat (rewrite lookup_insert_ne; [|discriminate]).
  apply lookup_insert_eq.
Qed.

(** ** The slider verifier *)

Lemma list_eq_spec (a b : list Z) : list_eq a b = true <-> a = b.
Proof.
  revert b. induction a as [|x a IH]; intros [|y b]; simpl; split;
    try congruence; try reflexivity.
  - intros H. apply andb_true_iff in H as [Hx Hab].
    apply Z.eqb_eq in Hx. apply IH in Hab. congruence.
  - intros H. injection H as -> ->. rewrite Z.eqb_refl. simpl. now apply IH.
Qed.

(** C8: [verify_slider_solution] returns [True] exactly on the list
    [1,2,3,4,5,6,7,8,0]; the proper rotations of the solved state, the solved
    state with two tiles exchanged, the lists of another length and the
    empty list are rejected. *)
Theorem verify_slider_solution_exact (puzzle_state : list Z) :
  let solved := [1; 2; 3; 4; 5; 6; 7; 8; 0] in
  (verify_slider_solution puzzle_state = true <-> puzzle_state = solved)
  /\ (forall k : nat, (1 <= k <= 8)%nat ->
        verify_slider_solution (drop k solved ++ take k solved) = false)
  /\ (forall i j : nat, (i < j < 9)%nat ->
        verify_slider_solution (exchange solved i j) = false)
  /\ (List.length puzzle_state <> 9%nat -> verify_slider_solution puzzle_state = false)
  /\ verify_slider_solution [] = false.
Proof.
  intros solved.
  assert (Hiff : forall l, verify_slider_solution l = true <-> l = solved)
    by (intros l; apply list_eq_spec).
  split; [apply Hiff|]. split; [|split; [|split]].
  - intros k Hk.
    assert (Hcases : In k (seq 1 8)) by (apply in_seq; lia).
    simpl in Hcases. repeat (destruct Hcases as [<- | Hcases]; [reflexivity|]).
    destruct Hcases.
  - intros i j Hij.
    assert (Hi : In i (seq 0 9)) by (apply in_seq; lia).
    assert (Hj : In j (seq 0 9)) by (apply in_seq; lia).
    simpl in Hi, Hj.
    repeat (destruct Hi as [<- | Hi];
            [repeat (destruct Hj as [<- | Hj]; [first [reflexivity | lia]|]);
             destruct Hj|]).
    destruct Hi.
  - intros Hlen. destruct (verify_slider_solution puzzle_state) eqn:Hv; [|reflexivity].
    apply Hiff in Hv. subst puzzle_state. simpl in Hlen. congruence.
  - reflexivity.
Qed.

Lemma verify_slider_solution_exact_witness :
  verify_slider_solution [1; 2; 3; 4; 5; 6; 7; 8; 0] = true
  /\ verify_slider_solution [2; 3; 4; 5; 6; 7; 8; 0; 1] = false
  /\ verify_slider_solution [2; 1; 3; 4; 5; 6; 7; 8; 0] = false
  /\ verify_slider_solution [1; 2; 3; 4; 5; 6; 7; 8] = false.
Proof.
  split; [|split; [|split]].
  - apply (verify_slider_solution_exact [1; 2; 3; 4; 5; 6; 7; 8; 0]). reflexivity.
  - apply (proj1 (proj2 (verify_slider_solution_exact [])) 1%nat). lia.
  - apply (proj1 (proj2 (proj2 (verify_slider_solution_exact []))) 0%nat 1%nat). lia.
  - apply (proj1 (proj2 (proj2 (proj2 (verify_slider_solution_exact [1; 2; 3; 4; 5; 6; 7; 8]))))).
    simpl. lia.
Defined.

(** ** The completion handlers *)

Lemma invalid_session_fields :
  invalid_session !! "success" = Some (PBool false)
  /\ invalid_session !! "message" = Some (PStr "Invalid session").
Proof. split; reflexivity. Qed.

(** C6: for each of the five completion handlers, when the session holds
    nothing under the key of that challenge and game, the answer is the dict
    with [success] false and the message ['Invalid session'], and the state
    (the progress table and the session) is unchanged: no row is created. *)
Theorem completion_needs_session (user : Z) (challenge_id : string) (now : datetime)
    (answers : option (list Z)) (puzzle_state : option (list Z)) (answer : option string)
    (st : state) :
  let rejected (out : response * state) :=
    exists body, out = (Ok body, st)
                 /\ body !! "success" = Some (PBool false)
                 /\ body !! "message" = Some (PStr "Invalid session") in
  (session st !! ("wheel_" +:+ challenge_id) = None ->
     rejected (wheel_complete user challenge_id now st))
  /\ (session st !! ("quiz_" +:+ challenge_id) = None ->
     rejected (quiz_submit user challenge_id answers now st))
  /\ (session st !! ("memory_" +:+ challenge_id) = None ->
     rejected (memory_complete user challenge_id now st))
  /\ (session st !! ("slider_" +:+ challenge_id) = None ->
     rejected (slider_complete user challenge_id puzzle_state now st))
  /\ (session st !! ("scramble_" +:+ challenge_id) = None ->
     rejected (scramble_submit user challenge_id answer now st)).
Proof.
  intros rejected.
  assert (Hrej : rejected (Ok invalid_session, st)).
  { exists invalid_session. split; [reflexivity|]. apply invalid_session_fields. }
  repeat split; intros Hnone.
  - unfold wheel_complete. now rewrite Hnone.
  - unfold quiz_submit. now rewrite Hnone.
  - unfold memory_complete. now rewrite Hnone.
  - unfold slider_complete. now rewrite Hnone.
  - unfold scramble_submit. now rewrite Hnone.
Qed.

Lemma completion_needs_session_witness :
  let st := {| db := []; session := {[ "quiz_rsa_hard"%string := SQuiz [] "CR" ]} |} in
  let rejected (out : response * state) :=
    exists body, out = (Ok body, st)
                 /\ body !! "success" = Some (PBool false)
                 /\ body !! "message" = Some (PStr "Invalid session") in
  rejected (wheel_complete 7 "aes_easy" 100 st)
  /\ rejected (quiz_submit 7 "aes_easy" (Some [0; 2; 1]) 100 st)
  /\ rejected (memory_complete 7 "aes_easy" 100 st)
  /\ rejected (slider_complete 7 "aes_easy" (Some [1; 2; 3; 4; 5; 6; 7; 8; 0]) 100 st)
  /\ rejected (scramble_submit 7 "aes_easy" (Some "HASHING"%string) 100 st).
Proof.
  intros st rejected.
  destruct (completion_needs_session 7 "aes_easy" 100 (Some [0; 2; 1])
              (Some [1; 2; 3; 4; 5; 6; 7; 8; 0]) (Some "HASHING"%string) st)
    as (Hwheel & Hquiz & Hmemory & Hslider & Hscramble).
  split; [exact (Hwheel eq_refl)|]. split; [exact (Hquiz eq_refl)|].
  split; [exact (Hmemory eq_refl)|]. split; [exact (Hslider eq_refl)|].
  exact (Hscramble eq_refl).
Defined.

(** ** The quiz *)

Section Quiz.

Variable answers : list Z.

Lemma answer_guard (i : nat) (q : quiz_question) :
  (Z.of_nat i <? Z.of_nat (List.length answers))
  && (nth (Z.to_nat (Z.of_nat i)) answers 0 =? answer q)
  = match answers !! i with Some a => a =? answer q | None => false end.
Proof.
  rewrite Nat2Z.id. destruct (answers !! i) as [a|] eqn:Hl.
  - pose proof (lookup_lt_Some _ _ _ Hl) as Hlt.
    assert (Hguard : (Z.of_nat i <? Z.of_nat (List.length answers)) = true)
      by (apply Z.ltb_lt; lia).
    rewrite Hguard. simpl.
    rewrite (nth_lookup_Some _ _ 0 _ Hl). reflexivity.
  - apply lookup_ge_None in Hl.
    assert (Hguard : (Z.of_nat i <? Z.of_nat (List.length answers)) = false)
      by (apply Z.ltb_ge; lia).
    now rewrite Hguard.
Qed.

(** The loop over [enumerate(questions)], started at index [off] of the
    served list [served = done ++ qs]. *)
Lemma quiz_loop (served qs done : list quiz_question) (correct : Z) :
  served = done ++ qs ->
  fold_left
    (fun correct iq =>
       let '(i, q) := iq in
       if (i <? Z.of_nat (List.length answers))
          && (nth (Z.to_nat i) answers 0 =? answer q)
       then correct + 1 else correct)
    (combine (map Z.of_nat (seq (List.length done) (List.length qs))) qs) correct
  = correct
    + Z.of_nat (List.length (List.filter (earns_point served answers)
                               (seq (List.length done) (List.length qs)))).
Proof.
  revert done correct. induction qs as [|q qs IH]; intros done correct Hserved; simpl.
  - lia.
  - rewrite answer_guard.
    assert (Hq : served !! List.length done = Some q).
    { rewrite Hserved. rewrite lookup_app_r by lia.
      now rewrite Nat.sub_diag. }
    assert (Hnext : S (List.length done) = List.length (done ++ [q]))
      by (rewrite length_app; simpl; lia).
    rewrite Hnext.
    rewrite (IH (done ++ [q])) by (rewrite Hserved, <- app_assoc; reflexivity).
    rewrite <- Hnext. unfold earns_point at 2. rewrite Hq.
    destruct (answers !! List.length done) as [a|]; [|lia].
    destruct (a =? answer q); simpl List.length; lia.
Qed.

Lemma verify_quiz_answers_points (questions : list quiz_question) :
  verify_quiz_answers questions answers
  = (Z.of_nat (points questions answers), Z.of_nat (List.length questions)).
Proof.
  unfold verify_quiz_answers, enumerate, range, points. f_equal.
  rewrite Nat2Z.id.
  exact (quiz_loop questions questions [] 0 eq_refl).
Qed.

End Quiz.

(** C7: [verify_quiz_answers] returns the number of indices [i] of the
    served question list for which [answers[i]] exists and equals the stored
    correct index of question [i] (a missing answer earns nothing), with the
    number of questions; the quiz
    submission succeeds and records the completion when that count is at
    least 2, and fails, leaving the state as it was, when it is below 2. *)
Theorem quiz_submit_threshold (user : Z) (challenge_id : string) (answers : option (list Z))
    (now : datetime) (st : state) (questions : list quiz_question) (key_part : string) :
  session st !! ("quiz_" +:+ challenge_id) = Some (SQuiz questions key_part) ->
  let correct := points questions (default [] answers) in
  let out := quiz_submit user challenge_id answers now st in
  verify_quiz_answers questions (default [] answers)
  = (Z.of_nat correct, Z.of_nat (List.length questions))
  /\ ((2 <= correct)%nat ->
      exists body,
        out.1 = Ok body
        /\ body !! "success" = Some (PBool true)
        /\ db out.2
           = mark_game_completed user challenge_id "quiz" key_part 0 now (db st)
        /\ MinigameProgress.has_completed user challenge_id "quiz" (db out.2) = true
        /\ session out.2 !! ("quiz_" +:+ challenge_id) = None)
  /\ ((correct < 2)%nat ->
      exists body,
        out.1 = Ok body
        /\ body !! "success" = Some (PBool false)
        /\ out.2 = st).
Proof.
  intros Hsession correct out.
  pose proof (verify_quiz_answers_points (default [] answers) questions) as Hverify.
  fold correct in Hverify.
  split; [exact Hverify|].
  unfold out, quiz_submit. rewrite Hsession. simpl session_falsy. cbv iota.
  rewrite Hverify.
  split; intros Hc.
  - assert (Hge : (Z.of_nat correct >=? 2) = true) by (apply Z.geb_le; lia).
    rewrite Hge. eexists. split; [reflexivity|].
    split; [reflexivity|]. split; [reflexivity|]. split.
    + apply mark_has.
    + apply lookup_delete_eq.
  - assert (Hlt : (Z.of_nat correct >=? 2) = false).
    { destruct (Z.of_nat correct >=? 2) eqn:E; [|reflexivity].
      apply Z.geb_le in E. lia. }
    rewrite Hlt. eexists. split; [reflexivity|].
    split; reflexivity.
Qed.

Lemma quiz_submit_threshold_witness :
  let served := take 3 QUIZ_QUESTIONS in
  let st := {| db := []; session := {[ "quiz_aes_easy"%string := SQuiz served "CR" ]} |} in
  verify_quiz_answers served [0; 2; 0] = (2, 3)
  /\ verify_quiz_answers served [0] = (1, 3)
  /\ (exists body, (quiz_submit 7 "aes_easy" (Some [0; 2; 0]) 100 st).1 = Ok body
                   /\ body !! "success" = Some (PBool true))
  /\ (exists body, (quiz_submit 7 "aes_easy" (Some [0]) 100 st).1 = Ok body
                   /\ body !! "success" = Some (PBool false)).
Proof.
  intros served st.
  destruct (quiz_submit_threshold 7 "aes_easy" (Some [0; 2; 0]) 100 st served "CR" eq_refl)
    as (Hv2 & Hok & _).
  destruct (quiz_submit_threshold 7 "aes_easy" (Some [0]) 100 st served "CR" eq_refl)
    as (Hv1 & _ & Hfail).
  split; [exact Hv2|]. split; [exact Hv1|]. split.
  - destruct (Hok ltac:(vm_compute; lia)) as (body & Hbody & Hsucc & _).
    exists body. split; assumption.
  - destruct (Hfail ltac:(vm_compute; lia)) as (body & Hbody & Hsucc & _).
    exists body. split; assumption.
Defined.

(** ** The recorded part index *)

Lemma complete_rows (user : Z) (challenge_id game key_part key : string)
    (now : datetime) (st : state) :
  db (complete user challenge_id game key_part key now st) = db st
  \/ exists r, db (complete user challenge_id game key_part key now st) = db st ++ [r]
               /\ MinigameProgress.part_index r = 0.
Proof.
  simpl. destruct (MinigameProgress.has_completed user challenge_id game (db st)) eqn:H.
  - left. now apply mark_noop.
  - right. destruct (mark_fresh user challenge_id game key_part 0 now (db st) H)
      as (r & Hr & _ & Hi & _).
    exists r. split; assumption.
Qed.

(** C10: whatever the five completion handlers are given, the progress
    table they leave is the table they found, or that table with one more
    row whose [part_index] is 0: no handler passes a part index, and
    [mark_game_completed] takes its default. *)
Theorem completion_part_index_zero (user : Z) (challenge_id : string) (now : datetime)
    (answers : option (list Z)) (puzzle_state : option (list Z)) (answer : option string)
    (st : state) :
  let zero_or_none (out : response * state) :=
    db out.2 = db st
    \/ exists r, db out.2 = db st ++ [r] /\ MinigameProgress.part_index r = 0 in
  zero_or_none (wheel_complete user challenge_id now st)
  /\ zero_or_none (quiz_submit user challenge_id answers now st)
  /\ zero_or_none (memory_complete user challenge_id now st)
  /\ zero_or_none (slider_complete user challenge_id puzzle_state now st)
  /\ zero_or_none (scramble_submit user challenge_id answer now st).
Proof.
  intros zero_or_none. unfold zero_or_none.
  repeat split.
  - unfold wheel_complete.
    destruct (session st !! _) as [[k | qs k | w k]|]; cbn [session_falsy snd]; auto.
    destruct (str_falsy k); cbn [snd]; auto using complete_rows.
  - unfold quiz_submit.
    destruct (session st !! _) as [[k | qs k | w k]|]; cbn [session_falsy snd]; auto.
    + destruct (str_falsy k); cbn [snd]; auto.
    + destruct (verify_quiz_answers qs (default [] answers)) as [correct total].
      destruct (correct >=? 2); cbn [snd]; auto using complete_rows.
  - unfold memory_complete.
    destruct (session st !! _) as [[k | qs k | w k]|]; cbn [session_falsy snd]; auto.
    destruct (str_falsy k); cbn [snd]; auto using complete_rows.
  - unfold slider_complete.
    destruct (session st !! _) as [[k | qs k | w k]|]; cbn [session_falsy snd]; auto.
    destruct (str_falsy k); cbn [snd]; auto.
    destruct (verify_slider_solution _); cbn [snd]; auto using complete_rows.
  - unfold scramble_submit.
    destruct (session st !! _) as [[k | qs k | w k]|]; cbn [session_falsy snd]; auto.
    + destruct (str_falsy k); cbn [snd]; auto.
    + destruct (verify_scramble _ w); cbn [snd]; auto using complete_rows.
Qed.

(** The quiz part of ["SECRET12"] has index 1 and its slider part index 3;
    the rows the two handlers record carry index 0. *)
Example part_index_of_secret12 :
  let st :=
    {| db := [];
       session := {[ "quiz_aes_easy"%string := SQuiz (take 3 QUIZ_QUESTIONS) "CR";
                     "slider_aes_easy"%string := SKeyPart "1" ]} |} in
  (exists parts,
      split_key "SECRET12" 5 = Ok parts
      /\ map index (List.filter (fun p => String.eqb (game_type p) "quiz") parts) = [1]
      /\ map index (List.filter (fun p => String.eqb (game_type p) "slider") parts) = [3])
  /\ map MinigameProgress.part_index
       (db (quiz_submit 7 "aes_easy" (Some [0; 2; 1]) 100 st).2) = [0]
  /\ map MinigameProgress.part_index
       (db (slider_complete 7 "aes_easy" (Some [1; 2; 3; 4; 5; 6; 7; 8; 0]) 100 st).2) = [0].
Proof.
  intros st. split; [|split; vm_compute; reflexivity].
  eexists. split; [reflexivity|]. split; reflexivity.
Qed.

(** ** The word scramble *)

Section Scramble.

Lemma exchange_perm {A : Type} (x : list A) (i j : nat) : Permutation (exchange x i j) x.
Proof.
  unfold exchange.
  destruct (x !! i) as [a|] eqn:Hi; [|reflexivity].
  destruct (x !! j) as [b|] eqn:Hj; [|reflexivity].
  now apply Permutation_insert_swap.
Qed.

Lemma shuffle_from_perm {A : Type} (i : nat) (x : list A) (g : rng) :
  Permutation (shuffle_from i x g).1 x.
Proof.
  revert x g. induction i as [|i IH]; intros x g; simpl; [reflexivity|].
  etransitivity; [apply IH | apply exchange_perm].
Qed.

Lemma shuffle_perm {A : Type} (x : list A) (g : rng) : Permutation (shuffle x g).1 x.
Proof. apply shuffle_from_perm. Qed.

(** When the loop ends, what it holds is a rearrangement that does not
    spell the word. *)
Lemma reshuffle_spec (fuel : nat) (w : string) (s s' : list ascii) (g g' : rng) :
  reshuffle fuel w s g = Some (s', g') ->
  Permutation s' s /\ string_of_list_ascii s' <> w.
Proof.
  revert s g. induction fuel as [|fuel IH]; intros s g H; simpl in H; [discriminate|].
  destruct (String.eqb_spec (string_of_list_ascii s) w) as [Heq | Hne].
  - destruct (shuffle s g) as [s1 g1] eqn:Hsh.
    apply IH in H as [Hperm Hdiff]. split; [|exact Hdiff].
    etransitivity; [exact Hperm|].
    change s1 with (s1, g1).1. rewrite <- Hsh. apply shuffle_perm.
  - injection H as <- <-. split; [reflexivity | exact Hne].
Qed.

(** The loop ends as soon as a shuffle moves a letter of the word. *)
Lemma reshuffle_ends (fuel : nat) (w : string) (s : list ascii) (g : rng) :
  string_of_list_ascii s <> w -> reshuffle (S fuel) w s g = Some (s, g).
Proof.
  intros Hne. simpl.
  now destruct (String.eqb_spec (string_of_list_ascii s) w).
Qed.

Lemma choice_in (g : rng) :
  In (choice SCRAMBLE_WORDS (EmptyString, EmptyString) g).1 SCRAMBLE_WORDS.
Proof.
  unfold choice, randbelow. cbn [fst].
  apply nth_In. apply Nat.mod_upper_bound. simpl. lia.
Qed.

(** On [idle_tape] past the first draw, a shuffle of the seven letters
    returns them as they were, on a tape of the same kind. *)
Lemma idle_shuffle (g : rng) :
  (forall k, g k = (6 - k mod 6)%nat) ->
  exists g', shuffle (list_ascii_of_string "HASHING") g
             = (list_ascii_of_string "HASHING", g')
             /\ forall k, g' k = (6 - k mod 6)%nat.
Proof.
  intros Hg. eexists. split.
  - unfold shuffle. simpl. rewrite !Hg. simpl. reflexivity.
  - intros k. cbn beta. rewrite Hg.
    replace (S (S (S (S (S (S k)))))) with (k + 1 * 6)%nat by lia.
    now rewrite Nat.Div0.mod_add.
Qed.

Lemma idle_reshuffle (fuel : nat) (g : rng) :
  (forall k, g k = (6 - k mod 6)%nat) ->
  reshuffle fuel "HASHING" (list_ascii_of_string "HASHING") g = None.
Proof.
  revert g. induction fuel as [|fuel IH]; intros g Hg; [reflexivity|].
  cbn [reshuffle].
  change (String.eqb (string_of_list_ascii (list_ascii_of_string "HASHING")) "HASHING")
    with true. cbv iota.
  destruct (idle_shuffle g Hg) as (g' & -> & Hg'). now apply IH.
Qed.

(** The loop need not end: on [idle_tape] no amount of fuel is enough. *)
Lemma generate_scramble_idle (fuel : nat) : generate_scramble fuel idle_tape = None.
Proof.
  unfold generate_scramble, choice, randbelow. simpl nth. cbv iota beta.
  destruct (idle_shuffle (fun k => idle_tape (S k)) ltac:(reflexivity))
    as (g' & -> & Hg').
  now rewrite idle_reshuffle.
Qed.

End Scramble.

(** C9: whenever [generate_scramble] returns, its [scrambled] field is a
    rearrangement of the characters of its [word] field and differs from
    the word, and [(word, hint)] is one of the 10 pairs of
    [SCRAMBLE_WORDS]; so for every word of the list the scrambled form that
    is generated differs from the word. *)
Theorem generate_scramble_differs (fuel : nat) (g g' : rng) (puzzle : scramble_puzzle) :
  generate_scramble fuel g = Some (puzzle, g') ->
  Permutation (list_ascii_of_string (scrambled puzzle))
              (list_ascii_of_string (word puzzle))
  /\ scrambled puzzle <> word puzzle
  /\ In (word puzzle, hint puzzle) SCRAMBLE_WORDS
  /\ List.length SCRAMBLE_WORDS = 10%nat.
Proof.
  intros H. unfold generate_scramble in H.
  pose proof (choice_in g) as Hin.
  destruct (choice SCRAMBLE_WORDS (EmptyString, EmptyString) g) as [[w h] g1].
  cbn [fst] in Hin.
  destruct (shuffle (list_ascii_of_string w) g1) as [s g2] eqn:Hsh.
  destruct (reshuffle fuel w s g2) as [[s' g3]|] eqn:Hre; [|discriminate].
  injection H as <- <-. cbn [scrambled word hint].
  apply reshuffle_spec in Hre as [Hperm Hdiff].
  split; [|split; [exact Hdiff | split; [exact Hin | reflexivity]]].
  rewrite list_ascii_of_string_of_list_ascii.
  etransitivity; [exact Hperm|].
  change s with (s, g2).1. rewrite <- Hsh. apply shuffle_perm.
Qed.

Lemma generate_scramble_differs_witness :
  exists puzzle g',
    generate_scramble 1 (fun _ => 0%nat) = Some (puzzle, g')
    /\ word puzzle = "ENCRYPTION"%string
    /\ scrambled puzzle = "NCRYPTIONE"%string
    /\ scrambled puzzle <> word puzzle.
Proof.
  eexists. eexists. split; [vm_compute; reflexivity|].
  split; [reflexivity|]. split; [reflexivity|].
  apply (generate_scramble_differs 1 (fun _ => 0%nat) _ _ eq_refl).
Defined.

(** ** More on the key splitter *)

Lemma range_succ (k : nat) : range (Z.of_nat (S k)) = range (Z.of_nat k) ++ [Z.of_nat k].
Proof. unfold range. rewrite !Nat2Z.id, seq_S, map_app. reflexivity. Qed.

Lemma parts_from_app (key : string) (b r : Z) (xs ys : list Z) (start : Z) :
  parts_from key b r (xs ++ ys) start
  = parts_from key b r xs start ++ parts_from key b r ys (start + consumed b r xs).
Proof.
  revert start. induction xs as [|i xs IH]; intros start; simpl.
  - now rewrite Z.add_0_r.
  - destruct (part_size b r i >? 0) eqn:Hs.
    + simpl. rewrite IH.
      replace (start + part_size b r i + consumed b r xs)
        with (start + (Z.max 0 (part_size b r i) + consumed b r xs)) by lia.
      reflexivity.
    + rewrite IH.
      replace (start + (Z.max 0 (part_size b r i) + consumed b r xs))
        with (start + consumed b r xs) by lia.
      reflexivity.
Qed.

(** The indices below [m] among those of [range(n)]. *)
Lemma filter_range_below (m n : Z) :
  0 <= m -> List.filter (fun i => i <? m) (range n) = range (Z.min m n).
Proof.
  intros Hm. destruct (Z_lt_le_dec n 0) as [Hneg | Hn].
  { unfold range.
    assert (H1 : Z.to_nat n = O) by lia. assert (H2 : Z.to_nat (Z.min m n) = O) by lia.
    rewrite H1, H2. reflexivity. }
  rewrite <- (Z2Nat.id n Hn). generalize (Z.to_nat n) as k. clear n Hn.
  induction k as [|k IH].
  - unfold range. simpl.
    assert (H0 : Z.to_nat (Z.min m (Z.of_nat 0)) = O) by lia. rewrite H0. reflexivity.
  - rewrite range_succ, List.filter_app, IH. simpl.
    destruct (Z.of_nat k <? m) eqn:Hlt.
    + apply Z.ltb_lt in Hlt.
      replace (Z.min m (Z.of_nat k)) with (Z.of_nat k) by lia.
      replace (Z.min m (Z.of_nat (S k))) with (Z.of_nat (S k)) by lia.
      now rewrite range_succ.
    + apply Z.ltb_ge in Hlt. rewrite app_nil_r. f_equal. lia.
Qed.

Lemma filter_all {A : Type} (f : A -> bool) (l : list A) :
  (forall x, In x l -> f x = true) -> List.filter f l = l.
Proof.
  induction l as [|x l IH]; intros H; simpl; [reflexivity|].
  rewrite (H x) by now left. f_equal. apply IH. intros y Hy. apply H. now right.
Qed.

(** The loop indices that get a part are the first [min(len(key), n)]. *)
Lemma kept_indices (key : string) (n : Z) :
  1 <= n ->
  List.filter (fun i => part_size (len key / n) (len key mod n) i >? 0) (range n)
  = range (Z.min (len key) n).
Proof.
  intros Hn.
  assert (Hlen : 0 <= len key) by (unfold len; lia).
  destruct (Z_lt_le_dec (len key) n) as [Hshort | Hlong].
  - rewrite Z.div_small, Z.mod_small by lia.
    rewrite <- filter_range_below by lia.
    apply filter_ext. intros i. unfold part_size.
    destruct (i <? len key); reflexivity.
  - replace (Z.min (len key) n) with n by lia.
    assert (Hbase : 1 <= len key / n) by (apply Z.div_le_lower_bound; lia).
    pose proof (Z.mod_pos_bound (len key) n ltac:(lia)).
    apply filter_all. intros i Hi. apply range_bounds in Hi.
    unfold part_size.
    destruct (i <? len key mod n); apply Z.gtb_lt; lia.
Qed.

(** With a positive part count [split_key] returns [min(len(key), n)] parts,
    those of the loop indices [0 .. min(len(key), n) - 1] in order, and no
    part is empty: a key shorter than the part count yields one part of one
    character per character. *)
Theorem split_key_count (key : string) (n : Z) :
  1 <= n ->
  exists parts,
    split_key key n = Ok parts
    /\ map index parts = range (Z.min (len key) n)
    /\ Z.of_nat (List.length parts) = Z.min (len key) n
    /\ Forall (fun p => value p <> EmptyString) parts.
Proof.
  intros Hn.
  assert (Hlen : 0 <= len key) by (unfold len; lia).
  exists (parts_from key (len key / n) (len key mod n) (range n) 0).
  assert (Hidx : map index (parts_from key (len key / n) (len key mod n) (range n) 0)
                 = range (Z.min (len key) n))
    by (rewrite parts_from_index; now apply kept_indices).
  split; [apply split_key_parts_from; lia|]. split; [exact Hidx|]. split.
  - rewrite <- (length_map index), Hidx. unfold range.
    rewrite length_map, length_seq. lia.
  - pose proof (parts_from_shape key (len key / n) (len key mod n) (range n) 0
                  ltac:(lia) ltac:(rewrite consumed_all by lia; lia)) as Hshape.
    assert (Hpos : Forall (fun i => part_size (len key / n) (len key mod n) i > 0)
                     (map index (parts_from key (len key / n) (len key mod n) (range n) 0))).
    { rewrite parts_from_index. apply List.Forall_forall. intros i Hi.
      apply filter_In in Hi as [_ Hi]. now apply Z.gtb_lt in Hi; lia. }
    rewrite List.Forall_forall in Hshape, Hpos. apply List.Forall_forall.
    intros p Hp Hempty.
    destruct (Hshape p Hp) as [Hl _].
    specialize (Hpos (index p) (in_map index _ p Hp)).
    rewrite Hempty in Hl. change (len EmptyString) with 0 in Hl. lia.
Qed.

Lemma split_key_count_witness :
  exists parts,
    split_key "ABC" 5 = Ok parts
    /\ map index parts = [0; 1; 2]
    /\ Z.of_nat (List.length parts) = 3
    /\ Forall (fun p => value p <> EmptyString) parts.
Proof. apply (split_key_count "ABC" 5). lia. Defined.

Lemma parts_from_game_type (key : string) (b r : Z) (ixs : list Z) (start : Z) :
  map game_type (parts_from key b r ixs start)
  = map minigame_type_at (map index (parts_from key b r ixs start)).
Proof.
  revert start. induction ixs as [|i ixs IH]; intros start; simpl; [reflexivity|].
  destruct (part_size b r i >? 0); simpl; now rewrite IH.
Qed.

(** With at most five parts (the routes use five) the games of the parts are
    the first [min(len(key), n)] of the cycle wheel, quiz, memory, slider,
    scramble, each once: a game has a part exactly when its place in the
    cycle is below the key length and the part count. *)
Theorem split_key_games (key : string) (n : Z) :
  1 <= n <= 5 ->
  exists parts,
    split_key key n = Ok parts
    /\ map game_type parts = take (Z.to_nat (Z.min (len key) n)) minigame_types
    /\ List.NoDup (map game_type parts).
Proof.
  intros Hn.
  pose proof (split_key_parts_from key n ltac:(lia)) as Hsplit.
  set (parts := parts_from key (len key / n) (len key mod n) (range n) 0) in *.
  assert (Hidx : map index parts = range (Z.min (len key) n))
    by (unfold parts; rewrite parts_from_index; apply kept_indices; lia).
  exists parts. split; [exact Hsplit|].
  assert (Hlen : 0 <= len key) by (unfold len; lia).
  remember (Z.to_nat (Z.min (len key) n)) as k eqn:Hk.
  assert (Hk5 : (k <= 5)%nat) by lia.
  assert (Hgames : map game_type parts = take k minigame_types).
  { unfold parts in *. rewrite parts_from_game_type, Hidx.
    unfold range. rewrite <- Hk. clear -Hk5.
    do 6 (destruct k as [|k]; [reflexivity|]). lia. }
  split; [exact Hgames|]. rewrite Hgames. clear -Hk5.
  do 6 (destruct k as [|k];
        [repeat constructor; simpl; intuition discriminate|]).
  lia.
Qed.

Lemma split_key_games_witness :
  exists parts,
    split_key "ABC" 5 = Ok parts
    /\ map game_type parts = ["wheel"; "quiz"; "memory"]%string
    /\ List.NoDup (map game_type parts).
Proof. apply (split_key_games "ABC" 5). lia. Defined.

(** With a positive part count the part of loop index [i] is the slice of
    the key that starts at [i * base + min(i, r)] and has the computed size,
    for [base = len(key) // n] and [r = len(key) % n]. *)
Theorem split_key_offsets (key : string) (n : Z) :
  1 <= n ->
  let base := len key / n in
  let r := len key mod n in
  exists parts,
    split_key key n = Ok parts
    /\ Forall (fun p =>
                 let start := index p * base + Z.min (index p) r in
                 value p = slice key start (start + base + (if index p <? r then 1 else 0)))
              parts.
Proof.
  intros Hn base r.
  assert (Hlen : 0 <= len key) by (unfold len; lia).
  pose proof (Z.mod_pos_bound (len key) n ltac:(lia)) as Hr.
  pose proof (Z.div_pos (len key) n Hlen ltac:(lia)) as Hb.
  exists (parts_from key base r (range n) 0).
  split; [apply split_key_parts_from; lia|].
  rewrite <- (Z2Nat.id n) by lia. generalize (Z.to_nat n) as k.
  induction k as [|k IH]; [constructor|].
  rewrite range_succ, parts_from_app. apply Forall_app. split; [exact IH|].
  simpl. destruct (part_size base r (Z.of_nat k) >? 0); [|constructor].
  constructor; [|constructor]. simpl.
  rewrite consumed_range by (fold base; fold r; lia).
  unfold part_size. f_equal; lia.
Qed.

Lemma split_key_offsets_witness :
  exists parts,
    split_key "SECRET12" 5 = Ok parts
    /\ Forall (fun p =>
                 let start := index p * 1 + Z.min (index p) 3 in
                 value p = slice "SECRET12" start
                             (start + 1 + (if index p <? 3 then 1 else 0)))
              parts.
Proof. apply (split_key_offsets "SECRET12" 5). lia. Defined.

(** ** The key of a challenge *)

Section ChallengeKey.

Lemma contains_char_app (c : ascii) (a b : string) :
  contains_char c (a +:+ b) = contains_char c a || contains_char c b.
Proof.
  induction a as [|x a IH]; [reflexivity|].
  rewrite append_cons. simpl. rewrite IH. now rewrite orb_assoc.
Qed.

Lemma split_char_nonempty (c : ascii) (m : nat) (s : string) : split_char c m s <> [].
Proof.
  revert m. induction s as [|x s IH]; intros m; simpl; [discriminate|].
  destruct (Ascii.eqb x c); [destruct m; discriminate|].
  destruct (split_char c m s); discriminate.
Qed.

(** A piece without the separator, followed by the separator, is cut off. *)
Lemma split_char_cut (c : ascii) (m : nat) (a rest : string) :
  contains_char c a = false ->
  split_char c (S m) (a +:+ String c rest) = a :: split_char c m rest.
Proof.
  induction a as [|x a IH]; intros Ha.
  - simpl. now rewrite Ascii.eqb_refl.
  - simpl in Ha. apply orb_false_iff in Ha as [Hx Ha].
    rewrite append_cons. simpl. rewrite Hx, IH by exact Ha. reflexivity.
Qed.

(** A string without the separator is one piece. *)
Lemma split_char_whole (c : ascii) (m : nat) (a : string) :
  contains_char c a = false -> split_char c m a = [a].
Proof.
  induction a as [|x a IH]; intros Ha; [reflexivity|].
  simpl in Ha. apply orb_false_iff in Ha as [Hx Ha].
  simpl. rewrite Hx, IH by exact Ha. reflexivity.
Qed.

Lemma split_char_head (c : ascii) (m : nat) (s : string) :
  exists piece pieces, split_char c m s = piece :: pieces.
Proof.
  pose proof (split_char_nonempty c m s) as H.
  destruct (split_char c m s) as [|piece pieces]; [congruence|]. eauto.
Qed.

End ChallengeKey.

(** For an active challenge whose message is [LAYER:KEY:DATA], with no colon
    in [LAYER] and [KEY], [get_challenge_key] returns [KEY], whatever
    [DATA] holds (colons included); it returns [KEY] for [LAYER:KEY] too. *)
Theorem get_challenge_key_layered (challenge_id layer key data : string)
    (tbl : challenges) (c : Challenge.t) :
  active_challenge challenge_id tbl = Some c ->
  contains_char ":" layer = false ->
  contains_char ":" key = false ->
  (Challenge.encrypted_message c = layer +:+ ":" +:+ key +:+ ":" +:+ data ->
   get_challenge_key challenge_id tbl = Some key)
  /\ (Challenge.encrypted_message c = layer +:+ ":" +:+ key ->
      get_challenge_key challenge_id tbl = Some key).
Proof.
  intros Hc Hlayer Hkey. unfold get_challenge_key. rewrite Hc.
  split; intros ->.
  - rewrite contains_char_app. simpl contains_char at 2. rewrite orb_true_r.
    change (":" +:+ key +:+ ":" +:+ data) with (String ":" (key +:+ String ":" data)).
    rewrite split_char_cut by exact Hlayer.
    rewrite split_char_cut by exact Hkey.
    destruct (split_char_head ":" 0 data) as (piece & pieces & ->). reflexivity.
  - rewrite contains_char_app. simpl contains_char at 2. rewrite orb_true_r.
    change (":" +:+ key) with (String ":" key).
    rewrite split_char_cut by exact Hlayer.
    rewrite split_char_whole by exact Hkey. reflexivity.
Qed.

Lemma get_challenge_key_layered_witness :
  let c := Challenge.mk "aes_easy" "aes" "easy" "Decrypt" "10" (PList [])
             "AES:SECRET12:3q2+7w==:x" "flag{a}" (Some true) PNone in
  get_challenge_key "aes_easy" [c] = Some "SECRET12"%string.
Proof.
  intros c.
  apply (proj1 (get_challenge_key_layered "aes_easy" "AES" "SECRET12" "3q2+7w==:x" [c] c
                  eq_refl eq_refl eq_refl)).
  reflexivity.
Defined.

Lemma length_substring_prefix (s : string) (m : nat) :
  String.length (String.substring 0 m s) = Nat.min m (String.length s).
Proof.
  revert m. induction s as [|x s IH]; intros [|m]; simpl; try reflexivity.
  now rewrite IH.
Qed.

(** [get_challenge_key] returns [None] exactly when no active challenge has
    the id.  For an active challenge whose message has no colon it returns
    the first 16 characters of the message, or ["UNKNOWNKEY123456"] for the
    empty message; that key is never empty and never longer than 16. *)
Theorem get_challenge_key_fallback (challenge_id : string) (tbl : challenges) :
  (get_challenge_key challenge_id tbl = None <-> active_challenge challenge_id tbl = None)
  /\ (forall c,
        active_challenge challenge_id tbl = Some c ->
        contains_char ":" (Challenge.encrypted_message c) = false ->
        let msg := Challenge.encrypted_message c in
        exists key,
          get_challenge_key challenge_id tbl = Some key
          /\ key = (if str_falsy msg then "UNKNOWNKEY123456"%string else slice msg 0 16)
          /\ 1 <= len key <= 16
          /\ (msg <> EmptyString -> len key = Z.min 16 (len msg))).
Proof.
  split.
  - unfold get_challenge_key.
    destruct (active_challenge challenge_id tbl) as [c|]; [|tauto].
    split; [|discriminate].
    destruct (contains_char ":" _); [destruct (2 <=? _)%nat|]; discriminate.
  - intros c Hc Hcolon msg. unfold get_challenge_key. rewrite Hc, Hcolon.
    eexists. split; [reflexivity|]. unfold fallback_key. fold msg.
    split; [reflexivity|].
    destruct msg as [|x m] eqn:Hm; simpl str_falsy; cbv iota.
    + split; [vm_compute; split; discriminate | congruence].
    + unfold slice, len. simpl Z.to_nat.
      change (Pos.to_nat 16) with 16%nat.
      rewrite length_substring_prefix. simpl String.length. split; lia.
Qed.

Lemma get_challenge_key_fallback_witness :
  let c := Challenge.mk "rsa_hard" "rsa" "hard" "Factor" "30" (PList [])
             "0123456789abcdefXYZ" "flag{b}" (Some true) PNone in
  let off := Challenge.mk "old" "xor" "easy" "Gone" "5" (PList [])
             "XOR:KEY:00" "flag{c}" (Some false) PNone in
  (exists key, get_challenge_key "rsa_hard" [off; c] = Some key
               /\ key = "0123456789abcdef"%string
               /\ 1 <= len key <= 16
               /\ len key = 16)
  /\ get_challenge_key "old" [off; c] = None.
Proof.
  intros c off.
  destruct (get_challenge_key_fallback "rsa_hard" [off; c]) as [_ Hkey].
  destruct (get_challenge_key_fallback "old" [off; c]) as [Hnone _].
  split.
  - destruct (Hkey c eq_refl eq_refl) as (key & Hget & Heq & Hlen & Hmin).
    exists key. split; [exact Hget|]. split; [exact Heq|]. split; [exact Hlen|].
    apply Hmin. discriminate.
  - apply Hnone. reflexivity.
Defined.

(** ** More on the progress ledger *)

Section Ledger.

Variables user user' : Z.
Variables challenge challenge' game' revealed : string.
Variable i : Z.
Variable now : datetime.

Local Abbreviation marked := (mark_game_completed user' challenge' game' revealed i now).

(** A call appends at most one row and touches no other. *)
Lemma mark_appends (db : MinigameProgress.table) :
  marked db = db
  \/ marked db
     = db ++ [ MinigameProgress.mk (MinigameProgress.next_id db) user' challenge' game'
                 i revealed (Some now) ].
Proof.
  unfold mark_game_completed.
  destruct (MinigameProgress.has_completed user' challenge' game' db); [left|right];
    reflexivity.
Qed.

(** What is completed after a call: what was, and the triple of the call. *)
Lemma has_completed_after (game : string) (db : MinigameProgress.table) :
  MinigameProgress.has_completed user challenge game (marked db)
  = MinigameProgress.has_completed user challenge game db
    || ((user' =? user) && String.eqb challenge' challenge && String.eqb game' game).
Proof.
  unfold mark_game_completed.
  destruct (MinigameProgress.has_completed user' challenge' game' db) eqn:Hdone; simpl.
  - destruct (Z.eqb_spec user' user) as [-> | Hu]; simpl; [|now rewrite orb_false_r].
    destruct (String.eqb_spec challenge' challenge) as [-> | Hc]; simpl;
      [|now rewrite orb_false_r].
    destruct (String.eqb_spec game' game) as [-> | Hg]; simpl; [|now rewrite orb_false_r].
    now rewrite Hdone.
  - rewrite !has_completed_existsb. unfold MinigameProgress.get_user_progress.
    rewrite List.filter_app, existsb_app. f_equal. simpl.
    unfold MinigameProgress.row_of. simpl.
    destruct (user' =? user); simpl; [|reflexivity].
    destruct (String.eqb challenge' challenge); simpl; [|reflexivity].
    now rewrite orb_false_r.
Qed.

(** The rows of another user or challenge are not among those read. *)
Lemma get_user_progress_other (db : MinigameProgress.table) :
  (user', challenge') <> (user, challenge) ->
  MinigameProgress.get_user_progress user challenge (marked db)
  = MinigameProgress.get_user_progress user challenge db.
Proof.
  intros Hne. destruct (mark_appends db) as [-> | ->]; [reflexivity|].
  unfold MinigameProgress.get_user_progress. rewrite List.filter_app. simpl.
  unfold MinigameProgress.row_of. simpl.
  destruct (Z.eqb_spec user' user) as [-> | Hu]; simpl; [|apply app_nil_r].
  destruct (String.eqb_spec challenge' challenge) as [-> | Hc]; simpl;
    [congruence | apply app_nil_r].
Qed.

End Ledger.

(** A completion recorded for one user and challenge changes nothing for
    another user or another challenge: neither the progress dict, nor what
    is completed, nor the revealed key. *)
Theorem progress_isolated (user user' : Z) (challenge challenge' game' revealed : string)
    (i : Z) (now : datetime) (db : MinigameProgress.table) (key_parts : list KeyPart) :
  (user', challenge') <> (user, challenge) ->
  let db' := mark_game_completed user' challenge' game' revealed i now db in
  get_user_progress user challenge db' = get_user_progress user challenge db
  /\ (forall game, MinigameProgress.has_completed user challenge game db'
                   = MinigameProgress.has_completed user challenge game db)
  /\ get_revealed_key user challenge key_parts db'
     = get_revealed_key user challenge key_parts db.
Proof.
  intros Hne db'.
  assert (Hrows : MinigameProgress.get_user_progress user challenge db'
                  = MinigameProgress.get_user_progress user challenge db)
    by now apply get_user_progress_other.
  assert (Hdict : get_user_progress user challenge db' = get_user_progress user challenge db)
    by (unfold get_user_progress; now rewrite Hrows).
  split; [exact Hdict|]. split.
  - intros game. now rewrite !has_completed_existsb, Hrows.
  - unfold get_revealed_key. now rewrite Hdict.
Qed.

Lemma progress_isolated_witness :
  let db := mark_game_completed 7 "aes_easy" "wheel" "SE" 0 100 [] in
  let db' := mark_game_completed 8 "aes_easy" "quiz" "CR" 0 200 db in
  let parts := [ mkKeyPart 0 "SE" "wheel" false; mkKeyPart 1 "CR" "quiz" false ] in
  get_revealed_key 7 "aes_easy" parts db' = "SE**"%string
  /\ MinigameProgress.has_completed 7 "aes_easy" "quiz" db' = false.
Proof.
  intros db db' parts.
  destruct (progress_isolated 7 8 "aes_easy" "aes_easy" "quiz" "CR" 0 200 db parts)
    as (_ & Hhas & Hkey); [intros H; discriminate H|].
  split; [exact Hkey | exact (Hhas "quiz"%string)].
Defined.

(** The ledger is append-only: a call leaves the rows it found in place and
    adds at most one; what was completed stays completed, for every user,
    challenge and game; and the triple of the call is completed afterwards. *)
Theorem completion_never_revoked (user' : Z) (challenge' game' revealed : string)
    (i : Z) (now : datetime) (db : MinigameProgress.table) :
  let db' := mark_game_completed user' challenge' game' revealed i now db in
  (exists extra, db' = db ++ extra /\ (List.length extra <= 1)%nat)
  /\ (forall user challenge game,
         MinigameProgress.has_completed user challenge game db = true ->
         MinigameProgress.has_completed user challenge game db' = true)
  /\ MinigameProgress.has_completed user' challenge' game' db' = true.
Proof.
  intros db'. split; [|split].
  - destruct (mark_appends user' challenge' game' revealed i now db) as [H | H];
      unfold db'; rewrite H.
    + exists []. split; [now rewrite app_nil_r | simpl; lia].
    + eexists. split; [reflexivity | simpl; lia].
  - intros user challenge game H. unfold db'.
    now rewrite has_completed_after, H.
  - apply mark_has.
Qed.

Lemma completion_never_revoked_witness :
  let db := mark_game_completed 7 "aes_easy" "wheel" "SE" 0 100 [] in
  MinigameProgress.has_completed 7 "aes_easy" "wheel"
    (mark_game_completed 8 "rsa_hard" "quiz" "CR" 0 200 db) = true.
Proof.
  intros db.
  exact (proj1 (proj2 (completion_never_revoked 8 "rsa_hard" "quiz" "CR" 0 200 db))
           7 "aes_easy"%string "wheel"%string eq_refl).
Defined.

(** Completing a game reveals the parts of that game and nothing else: after
    the call the revealed key shows the value of every part whose game is
    the completed one and shows every other part as it did before.  The
    revealed part and the part index given to the call play no role. *)
Theorem completion_reveals (user : Z) (challenge game revealed : string) (i : Z)
    (now : datetime) (db : MinigameProgress.table) (key_parts : list KeyPart) :
  get_revealed_key user challenge key_parts
    (mark_game_completed user challenge game revealed i now db)
  = join (map (fun p =>
                 if String.eqb (game_type p) game then value p
                 else if MinigameProgress.has_completed user challenge (game_type p) db
                      then value p
                      else repeat_char "*" (String.length (value p)))
              key_parts).
Proof.
  rewrite get_revealed_key_join. f_equal. apply map_ext. intros p.
  unfold shown. rewrite has_completed_after.
  rewrite Z.eqb_refl, String.eqb_refl. simpl.
  rewrite (String.eqb_sym game).
  destruct (String.eqb (game_type p) game); [now rewrite orb_true_r|].
  now rewrite orb_false_r.
Qed.

Lemma progress_lookup_none (rows : list MinigameProgress.t)
    (m : gmap string progress_entry) (game : string) :
  fold_left
    (fun res record =>
       <[ MinigameProgress.minigame_type record :=
            {| completed := true;
               entry_revealed_part := MinigameProgress.revealed_part record;
               entry_completed_at := MinigameProgress.completed_at record |} ]> res)
    rows m !! game = None
  <-> m !! game = None
      /\ existsb (fun r => String.eqb (MinigameProgress.minigame_type r) game) rows = false.
Proof.
  revert m. induction rows as [|r rows IH]; intros m; simpl.
  - tauto.
  - rewrite IH. rewrite orb_false_iff.
    destruct (String.eqb_spec (MinigameProgress.minigame_type r) game) as [-> | Hne].
    + rewrite lookup_insert_eq. split; intros [H1 H2]; try discriminate.
      destruct H2. discriminate.
    + rewrite lookup_insert_ne by exact Hne. tauto.
Qed.

(** The progress dict has an entry for a game exactly when the game is
    completed.  A first completion enters the revealed part and the clock
    reading it was given; every later call for the triple leaves the entry
    as the first one made it. *)
Theorem progress_entry_first_write (user : Z) (challenge game revealed : string) (i : Z)
    (now : datetime) (db : MinigameProgress.table) :
  (get_user_progress user challenge db !! game = None
   <-> MinigameProgress.has_completed user challenge game db = false)
  /\ (MinigameProgress.has_completed user challenge game db = false ->
      let db' := mark_game_completed user challenge game revealed i now db in
      get_user_progress user challenge db' !! game
      = Some {| completed := true; entry_revealed_part := revealed;
                entry_completed_at := Some now |}
      /\ forall revealed2 i2 now2,
           get_user_progress user challenge
             (mark_game_completed user challenge game revealed2 i2 now2 db') !! game
           = Some {| completed := true; entry_revealed_part := revealed;
                     entry_completed_at := Some now |}).
Proof.
  split.
  - unfold get_user_progress. rewrite progress_lookup_none, has_completed_existsb.
    rewrite lookup_empty. tauto.
  - intros Hfresh db'.
    assert (Hfirst : get_user_progress user challenge db' !! game
                     = Some {| completed := true; entry_revealed_part := revealed;
                               entry_completed_at := Some now |}).
    { unfold db', mark_game_completed. rewrite Hfresh. simpl.
      unfold get_user_progress, MinigameProgress.get_user_progress.
      rewrite List.filter_app. simpl.
      rewrite row_of_refl by reflexivity.
      rewrite fold_left_app. simpl. apply lookup_insert_eq. }
    split; [exact Hfirst|]. intros revealed2 i2 now2.
    rewrite mark_noop by apply mark_has. exact Hfirst.
Qed.

Lemma progress_entry_first_write_witness :
  let db' := mark_game_completed 7 "aes_easy" "quiz" "CR" 0 100 [] in
  get_user_progress 7 "aes_easy" db' !! "quiz" = Some (mkEntry true "CR" (Some 100))
  /\ get_user_progress 7 "aes_easy"
       (mark_game_completed 7 "aes_easy" "quiz" "XX" 1 200 db') !! "quiz"
     = Some (mkEntry true "CR" (Some 100)).
Proof.
  intros db'.
  destruct (proj2 (progress_entry_first_write 7 "aes_easy" "quiz" "CR" 0 100 []) eq_refl)
    as [Hfirst Hlater].
  split; [exact Hfirst | exact (Hlater "XX"%string 1 200)].
Defined.

(** ** More on the quiz *)

Lemma earns_point_bound (questions : list quiz_question) (answers : list Z) (i : nat) :
  earns_point questions answers i = true ->
  (i < List.length questions)%nat /\ (i < List.length answers)%nat.
Proof.
  unfold earns_point.
  destruct (questions !! i) as [q|] eqn:Hq; [|discriminate].
  destruct (answers !! i) as [a|] eqn:Ha; [|discriminate].
  intros _. split; eapply lookup_lt_Some; eauto.
Qed.

Lemma points_le_answers (questions : list quiz_question) (answers : list Z) :
  (points questions answers <= List.length answers)%nat.
Proof.
  unfold points.
  rewrite <- (length_seq (List.length answers) 0%nat).
  apply List.NoDup_incl_length.
  - apply List.NoDup_filter, seq_NoDup.
  - intros i Hi. apply filter_In in Hi as [_ Hi].
    apply earns_point_bound in Hi. apply in_seq. lia.
Qed.

Lemma points_le_questions (questions : list quiz_question) (answers : list Z) :
  (points questions answers <= List.length questions)%nat.
Proof.
  unfold points. rewrite <- (length_seq (List.length questions) 0%nat) at 2.
  apply List.filter_length_le.
Qed.

Lemma points_perfect (questions : list quiz_question) :
  points questions (map answer questions) = List.length questions.
Proof.
  unfold points. rewrite filter_all; [apply length_seq|].
  intros i Hi. apply in_seq in Hi. unfold earns_point.
  destruct (questions !! i) as [q|] eqn:Hq.
  - rewrite list_lookup_fmap, Hq. simpl. apply Z.eqb_refl.
  - apply lookup_ge_None in Hq. lia.
Qed.

(** The score never exceeds the number of questions served nor the number
    of answers given, and the total is the number of questions. *)
Theorem verify_quiz_answers_bounds (questions : list quiz_question) (answers : list Z) :
  let '(correct, total) := verify_quiz_answers questions answers in
  0 <= correct <= total
  /\ correct <= Z.of_nat (List.length answers)
  /\ total = Z.of_nat (List.length questions).
Proof.
  rewrite verify_quiz_answers_points.
  pose proof (points_le_answers questions answers).
  pose proof (points_le_questions questions answers).
  lia.
Qed.

(** A sheet with the stored answer of every served question scores full
    marks and passes whenever at least two questions were served; a missing
    or empty sheet scores nothing and never passes, and leaves the state as
    it was. *)
Theorem quiz_submit_perfect_and_empty (user : Z) (challenge_id : string) (now : datetime)
    (st : state) (questions : list quiz_question) (key_part : string) :
  session st !! ("quiz_" +:+ challenge_id) = Some (SQuiz questions key_part) ->
  verify_quiz_answers questions (map answer questions)
  = (Z.of_nat (List.length questions), Z.of_nat (List.length questions))
  /\ ((2 <= List.length questions)%nat ->
      exists body,
        (quiz_submit user challenge_id (Some (map answer questions)) now st).1 = Ok body
        /\ body !! "success" = Some (PBool true)
        /\ body !! "revealed_part" = Some (PStr key_part))
  /\ (forall answers, answers = None \/ answers = Some [] ->
      exists body,
        quiz_submit user challenge_id answers now st = (Ok body, st)
        /\ body !! "success" = Some (PBool false)
        /\ body !! "correct" = Some (PInt 0)).
Proof.
  intros Hsession. split; [|split].
  - now rewrite verify_quiz_answers_points, points_perfect.
  - intros Hlen. unfold quiz_submit. rewrite Hsession. simpl session_falsy. cbv iota.
    simpl default. rewrite verify_quiz_answers_points, points_perfect.
    assert (Hge : (Z.of_nat (List.length questions) >=? 2) = true)
      by (apply Z.geb_le; lia).
    rewrite Hge. eexists. split; [reflexivity|]. split; reflexivity.
  - intros answers Hempty.
    assert (Hdefault : default [] answers = []) by (destruct Hempty; subst; reflexivity).
    unfold quiz_submit. rewrite Hsession. simpl session_falsy. cbv iota.
    rewrite Hdefault, verify_quiz_answers_points.
    assert (Hzero : points questions [] = O).
    { pose proof (points_le_answers questions []). simpl in *. lia. }
    rewrite Hzero. simpl. eexists. split; [reflexivity|]. split; reflexivity.
Qed.

Lemma quiz_submit_perfect_and_empty_witness :
  let served := take 3 QUIZ_QUESTIONS in
  let st := {| db := []; session := {[ "quiz_aes_easy"%string := SQuiz served "CR" ]} |} in
  (exists body, (quiz_submit 7 "aes_easy" (Some [0; 2; 1]) 100 st).1 = Ok body
                /\ body !! "success" = Some (PBool true)
                /\ body !! "revealed_part" = Some (PStr "CR"))
  /\ (exists body, quiz_submit 7 "aes_easy" None 100 st = (Ok body, st)
                   /\ body !! "success" = Some (PBool false)
                   /\ body !! "correct" = Some (PInt 0)).
Proof.
  intros served st.
  destruct (quiz_submit_perfect_and_empty 7 "aes_easy" 100 st served "CR" eq_refl)
    as (_ & Hpass & Hfail).
  split; [apply Hpass; simpl; lia | apply Hfail; now left].
Defined.

(** ** The quiz generator *)

Section Sample.

Context {A : Type}.
Variable d : A.

(** One step of the pool loop: the element taken and the places that stay
    in play are the places that were in play. *)
Lemma sample_pool_step (pool : list A) (n j : nat) :
  (j < n)%nat -> (n <= List.length pool)%nat ->
  Permutation (nth j pool d :: take (n - 1) (<[j := nth (n - 1) pool d]> pool))
              (take n pool).
Proof.
  intros Hj Hn. destruct n as [|m]; [lia|].
  replace (S m - 1)%nat with m by lia.
  destruct (lookup_lt_is_Some_2 pool m ltac:(lia)) as [xm Hm].
  destruct (lookup_lt_is_Some_2 pool j ltac:(lia)) as [xj Hxj].
  rewrite (nth_lookup_Some _ _ d _ Hm), (nth_lookup_Some _ _ d _ Hxj).
  rewrite (take_S_r _ _ _ Hm).
  destruct (decide (j = m)) as [-> | Hne].
  - assert (xj = xm) by congruence. subst xj.
    rewrite list_insert_id by exact Hm. apply Permutation_cons_append.
  - rewrite take_insert_lt by lia.
    assert (Hjt : take m pool !! j = Some xj) by (rewrite lookup_take_lt by lia; exact Hxj).
    assert (Hlen : (j < List.length (take m pool))%nat) by (rewrite length_take; lia).
    rewrite insert_take_drop by exact Hlen.
    rewrite <- (take_drop_middle (take m pool) j xj Hjt) at 3.
    rewrite <- Permutation_cons_append, <- !Permutation_middle. apply perm_swap.
Qed.

(** The sample has [k] elements, and with the places left in play it makes
    up the places that were in play. *)
Lemma sample_pool_spec (k n : nat) (pool : list A) (g : rng) :
  (k <= n)%nat -> (n <= List.length pool)%nat ->
  List.length (sample_pool k n pool d g).1 = k
  /\ exists left, Permutation ((sample_pool k n pool d g).1 ++ left) (take n pool).
Proof.
  revert n pool g. induction k as [|k IH]; intros n pool g Hk Hn.
  - split; [reflexivity|]. exists (take n pool). reflexivity.
  - simpl.
    set (j := (g O mod n)%nat).
    assert (Hj : (j < n)%nat) by (apply Nat.mod_upper_bound; lia).
    set (pool' := <[j := nth (n - 1) pool d]> pool).
    destruct (sample_pool k (n - 1) pool' d (fun i => g (S i))) as [rest g''] eqn:Hrest.
    destruct (IH (n - 1)%nat pool' (fun i => g (S i))) as [Hlen [left Hperm]];
      [lia | unfold pool'; rewrite length_insert; lia |].
    rewrite Hrest in Hlen, Hperm. simpl in *.
    split; [now rewrite Hlen|]. exists left.
    rewrite Hperm. now apply sample_pool_step.
Qed.

End Sample.

(** [get_quiz_questions(count)] raises [ValueError] for a negative count;
    otherwise it returns [min(count, 10)] questions of the bank, no question
    twice. *)
Theorem get_quiz_questions_distinct (count : Z) (g : rng) :
  (count < 0 -> get_quiz_questions count g = inl ValueError)
  /\ (0 <= count ->
      exists questions g',
        get_quiz_questions count g = inr (questions, g')
        /\ Z.of_nat (List.length questions) = Z.min count 10
        /\ List.NoDup questions
        /\ incl questions QUIZ_QUESTIONS).
Proof.
  unfold get_quiz_questions, sample.
  change (Z.of_nat (List.length QUIZ_QUESTIONS)) with 10.
  split; intros Hc.
  - assert (H : (0 <=? Z.min count 10) = false) by (apply Z.leb_gt; lia).
    now rewrite H.
  - assert (H1 : (0 <=? Z.min count 10) = true) by (apply Z.leb_le; lia).
    assert (H2 : (Z.min count 10 <=? 10) = true) by (apply Z.leb_le; lia).
    rewrite H1, H2. simpl andb. cbv iota.
    set (k := Z.to_nat (Z.min count 10)).
    destruct (sample_pool_spec (mkQuestion EmptyString [] 0) k
                (List.length QUIZ_QUESTIONS) QUIZ_QUESTIONS g)
      as [Hlen [left Hperm]]; [simpl; lia | lia |].
    destruct (sample_pool k _ QUIZ_QUESTIONS _ g) as [questions g'].
    simpl in Hlen, Hperm.
    exists questions, g'. split; [reflexivity|]. split; [lia|].
    assert (Hbank : List.NoDup QUIZ_QUESTIONS).
    { repeat constructor; simpl; intuition discriminate. }
    assert (Hall : List.NoDup (questions ++ left)).
    { eapply Permutation_NoDup; [symmetry; exact Hperm | exact Hbank]. }
    split.
    + now apply List.NoDup_app_remove_r in Hall.
    + intros q Hq. eapply Permutation_in; [exact Hperm|]. apply in_or_app. now left.
Qed.

Lemma get_quiz_questions_distinct_witness :
  get_quiz_questions (-1) (fun k => k) = inl ValueError
  /\ exists questions g',
       get_quiz_questions 3 (fun k => k) = inr (questions, g')
       /\ Z.of_nat (List.length questions) = 3
       /\ List.NoDup questions
       /\ incl questions QUIZ_QUESTIONS.
Proof.
  destruct (get_quiz_questions_distinct (-1) (fun k => k)) as [Hneg _].
  destruct (get_quiz_questions_distinct 3 (fun k => k)) as [_ Hpos].
  split; [apply Hneg; lia | apply Hpos; lia].
Defined.

(** ** The slider generator *)

Section Slider.

Lemma index_of_lookup (x : Z) (l : list Z) (i : nat) :
  index_of x l = Some i -> l !! i = Some x.
Proof.
  revert i. induction l as [|y l IH]; intros i H; simpl in H; [discriminate|].
  destruct (Z.eqb_spec y x) as [-> | Hne].
  - injection H as <-. reflexivity.
  - destruct (index_of x l) as [k|]; simpl in H; [|discriminate].
    injection H as <-. simpl. now apply IH.
Qed.

Lemma index_of_unique (x : Z) (l : list Z) (i : nat) :
  List.NoDup l -> l !! i = Some x -> index_of x l = Some i.
Proof.
  revert i. induction l as [|y l IH]; intros i Hnd Hi; [discriminate|].
  inversion Hnd as [|? ? Hy Hl]; subst. simpl.
  destruct i as [|i]; simpl in Hi.
  - injection Hi as ->. now rewrite Z.eqb_refl.
  - destruct (Z.eqb_spec y x) as [-> | Hne].
    + exfalso. apply Hy. apply list_elem_of_In. eapply list_elem_of_lookup_2. exact Hi.
    + now rewrite (IH i Hl Hi).
Qed.

Lemma slider_moves_neighbours (e s : nat) :
  (e < 9)%nat -> In s (slider_moves e) -> neighbours e s /\ s <> e.
Proof.
  intros He Hs.
  do 9 (destruct e as [|e];
        [simpl in Hs; unfold neighbours;
         repeat (destruct Hs as [<- | Hs]; [simpl; lia|]); destruct Hs|]).
  lia.
Qed.

Lemma slider_moves_some (e : nat) : (e < 9)%nat -> slider_moves e <> [].
Proof.
  intros He. do 9 (destruct e as [|e]; [discriminate|]). lia.
Qed.

Lemma choice_picks (moves : list nat) (g : rng) :
  moves <> [] -> In (choice moves O g).1 moves.
Proof.
  intros Hne. unfold choice, randbelow. cbn [fst].
  apply nth_In. apply Nat.mod_upper_bound. destruct moves; simpl; congruence.
Qed.

(** Exchanging two cells twice restores the board. *)
Lemma exchange_back {A : Type} (l : list A) (i j : nat) (a b : A) :
  i <> j -> l !! i = Some a -> l !! j = Some b ->
  exchange l i j = <[j:=a]> (<[i:=b]> l)
  /\ exchange (exchange l i j) j i = l.
Proof.
  intros Hne Hi Hj.
  assert (Hli : (i < List.length l)%nat) by (eapply lookup_lt_Some; eauto).
  assert (Hlj : (j < List.length l)%nat) by (eapply lookup_lt_Some; eauto).
  assert (Hfirst : exchange l i j = <[j:=a]> (<[i:=b]> l))
    by (unfold exchange; now rewrite Hi, Hj).
  split; [exact Hfirst|]. rewrite Hfirst. unfold exchange.
  rewrite list_lookup_insert_eq by (rewrite length_insert; lia).
  rewrite list_lookup_insert_ne by congruence.
  rewrite list_lookup_insert_eq by lia.
  apply stdpp.list_basics.list.list_eq. intros k.
  destruct (decide (k = i)) as [-> | Hki].
  - rewrite list_lookup_insert_eq by (rewrite !length_insert; lia). now rewrite Hi.
  - rewrite list_lookup_insert_ne by congruence.
    destruct (decide (k = j)) as [-> | Hkj].
    + rewrite list_lookup_insert_eq by (rewrite !length_insert; lia). now rewrite Hj.
    + now rewrite !list_lookup_insert_ne by congruence.
Qed.

Lemma neighbours_sym (a b : nat) : neighbours a b -> neighbours b a.
Proof. unfold neighbours. intros (Ha & Hb & H). repeat split; try assumption. lia. Qed.

(** On a board that holds each of the nine tiles once, a step of the loop is
    a legal slide, and the slide back is legal too. *)
Lemma slide_step (board : list Z) (g : rng) :
  Permutation board [1; 2; 3; 4; 5; 6; 7; 8; 0] ->
  exists e,
    index_of 0 board = Some e
    /\ slide board (exchange board e (choice (slider_moves e) O g).1)
    /\ slide (exchange board e (choice (slider_moves e) O g).1) board.
Proof.
  intros Hperm.
  assert (Hnd : List.NoDup board).
  { eapply Permutation_NoDup; [symmetry; exact Hperm|].
    repeat constructor; simpl; intuition discriminate. }
  assert (Hlen : List.length board = 9%nat) by (now rewrite (Permutation_length Hperm)).
  assert (Hzero : In 0 board).
  { eapply Permutation_in; [symmetry; exact Hperm|]. simpl. tauto. }
  apply list_elem_of_In, list_elem_of_lookup in Hzero as [e He].
  assert (He9 : (e < 9)%nat) by (rewrite <- Hlen; eapply lookup_lt_Some; eauto).
  exists e. split; [now apply index_of_unique|].
  set (s := (choice (slider_moves e) O g).1).
  assert (Hs : In s (slider_moves e)) by (apply choice_picks, slider_moves_some, He9).
  apply slider_moves_neighbours in Hs as [Hnb Hse]; [|exact He9].
  assert (Hs9 : (s < 9)%nat) by (destruct Hnb as (_ & H & _); exact H).
  destruct (lookup_lt_is_Some_2 board s ltac:(lia)) as [v Hv].
  destruct (exchange_back board e s 0 v ltac:(congruence) He Hv) as [Hex Hback].
  split.
  - exists e, s. split; [now apply index_of_unique|]. split; [exact Hnb | reflexivity].
  - exists s, e. split; [|split; [now apply neighbours_sym | now rewrite Hback]].
    apply index_of_unique.
    + eapply Permutation_NoDup; [symmetry; apply exchange_perm | exact Hnd].
    + rewrite Hex. apply list_lookup_insert_eq. rewrite length_insert. lia.
Qed.

(** The loop never raises; it ends on a board with the nine tiles, from
    which legal slides lead back to the board it started from. *)
Lemma slide_loop_spec (count : nat) (board : list Z) (g : rng) :
  Permutation board [1; 2; 3; 4; 5; 6; 7; 8; 0] ->
  exists final g',
    slide_loop count board g = inr (final, g')
    /\ Permutation final [1; 2; 3; 4; 5; 6; 7; 8; 0]
    /\ rtc slide final board.
Proof.
  revert board g. induction count as [|count IH]; intros board g Hperm.
  - exists board, g. split; [reflexivity|]. split; [exact Hperm | constructor].
  - destruct (slide_step board g Hperm) as (e & He & _ & Hback).
    destruct (choice (slider_moves e) O g) as [s g1] eqn:Hchoice.
    cbn [fst] in Hback.
    cbn [slide_loop]. rewrite He, Hchoice.
    destruct (IH (exchange board e s) g1) as (final & g' & Hrun & Hfinal & Hpath).
    { etransitivity; [apply exchange_perm | exact Hperm]. }
    exists final, g'. split; [exact Hrun|]. split; [exact Hfinal|].
    eapply rtc_r; eauto.
Qed.

End Slider.

(** [generate_slider_puzzle] never raises.  The puzzle it returns holds each
    of the tiles 0 to 8 once, is solvable (legal slides of a neighbouring
    tile into the empty cell lead from it to the solved board), and comes
    with the solved board [1,2,3,4,5,6,7,8,0] and the key part it was
    given. *)
Theorem generate_slider_puzzle_solvable (key_part : string) (g : rng) :
  exists p g',
    generate_slider_puzzle key_part g = inr (p, g')
    /\ Permutation (puzzle p) [1; 2; 3; 4; 5; 6; 7; 8; 0]
    /\ rtc slide (puzzle p) [1; 2; 3; 4; 5; 6; 7; 8; 0]
    /\ solution p = [1; 2; 3; 4; 5; 6; 7; 8; 0]
    /\ verify_slider_solution (solution p) = true
    /\ puzzle_key_part p = key_part.
Proof.
  unfold generate_slider_puzzle.
  destruct (slide_loop_spec 100 (range2 1 9 ++ [0]) g ltac:(reflexivity))
    as (final & g' & Hrun & Hperm & Hpath).
  rewrite Hrun. eexists. eexists. split; [reflexivity|]. simpl.
  repeat split; assumption.
Qed.

(** The generator does not check that the puzzle differs from the solved
    board: on a tape that moves the empty cell up and down in turn, the
    hundred slides end on the solved board, which the verifier accepts as
    it is. *)
Theorem generate_slider_puzzle_may_be_solved :
  exists g p g',
    generate_slider_puzzle "1" g = inr (p, g')
    /\ puzzle p = solution p
    /\ verify_slider_solution (puzzle p) = true.
Proof.
  exists (fun k => (k mod 2)%nat). eexists. eexists.
  split; [vm_compute; reflexivity|]. split; reflexivity.
Qed.

(** ** The scramble verifier *)

Section Strip.

Lemma rev_app_append (s t : string) : String.rev_app s t = String.rev s +:+ t.
Proof.
  unfold String.rev. revert t. induction s as [|a s IH]; intros t; simpl; [reflexivity|].
  rewrite IH, (IH (String a EmptyString)), append_assoc. reflexivity.
Qed.

Lemma rev_cons (a : ascii) (s : string) :
  String.rev (String a s) = String.rev s +:+ String a EmptyString.
Proof. unfold String.rev at 1. simpl. apply rev_app_append. Qed.

Lemma rev_append (s t : string) : String.rev (s +:+ t) = String.rev t +:+ String.rev s.
Proof.
  induction s as [|a s IH].
  - simpl. now rewrite append_empty_r.
  - rewrite append_cons, !rev_cons, IH, append_assoc. reflexivity.
Qed.

Lemma rev_involutive (s : string) : String.rev (String.rev s) = s.
Proof.
  induction s as [|a s IH]; [reflexivity|].
  rewrite rev_cons, rev_append, IH. reflexivity.
Qed.





Lemma blank_lstrip (s : string) : blank (lstrip s) = blank s.
Proof.
  induction s as [|a s IH]; [reflexivity|].
  simpl. destruct (isspace a) eqn:Ha; simpl; [exact IH | now rewrite Ha].
Qed.







End Strip.



Section Plain.

Lemma plain_upper_string (l : list ascii) :
  forallb plain_upper l = true ->
  upper (string_of_list_ascii l) = string_of_list_ascii l
  /\ lstrip (string_of_list_ascii l) = string_of_list_ascii l.
Proof.
  intros H. split.
  - induction l as [|c l IH]; simpl in *; [reflexivity|].
    apply andb_true_iff in H as [Hc Hl]. unfold plain_upper in Hc.
    apply andb_true_iff in Hc as [_ Hc]. apply Ascii.eqb_eq in Hc.
    now rewrite Hc, IH.
  - destruct l as [|c l]; simpl in *; [reflexivity|].
    apply andb_true_iff in H as [Hc _]. unfold plain_upper in Hc.
    apply andb_true_iff in Hc as [Hc _]. apply negb_true_iff in Hc. now rewrite Hc.
Qed.

Lemma string_of_list_ascii_app (a b : list ascii) :
  string_of_list_ascii (a ++ b) = string_of_list_ascii a +:+ string_of_list_ascii b.
Proof.
  induction a as [|c a IH]; [reflexivity|].
  simpl. rewrite append_cons. now rewrite IH.
Qed.

Lemma rev_string_of_list (l : list ascii) :
  String.rev (string_of_list_ascii l) = string_of_list_ascii (List.rev l).
Proof.
  induction l as [|c l IH]; [reflexivity|].
  simpl. rewrite rev_cons, IH, string_of_list_ascii_app. reflexivity.
Qed.

Lemma forallb_rev {A : Type} (f : A -> bool) (l : list A) :
  forallb f (List.rev l) = forallb f l.
Proof.
  induction l as [|x l IH]; [reflexivity|].
  simpl. rewrite forallb_app, IH. simpl. rewrite andb_true_r. apply andb_comm.
Qed.

(** [strip] and [upper] leave a string of plain characters as it is. *)
Lemma plain_upper_fixed (l : list ascii) :
  forallb plain_upper l = true ->
  strip (upper (string_of_list_ascii l)) = string_of_list_ascii l.
Proof.
  intros H. destruct (plain_upper_string l H) as [Hup Hls].
  unfold strip. rewrite Hup, Hls, rev_string_of_list.
  destruct (plain_upper_string (List.rev l)) as [_ Hrev];
    [now rewrite forallb_rev|].
  rewrite Hrev, <- rev_string_of_list. apply rev_involutive.
Qed.

Lemma forallb_permutation {A : Type} (f : A -> bool) (l l' : list A) :
  Permutation l l' -> forallb f l = true -> forallb f l' = true.
Proof.
  intros Hp H. apply forallb_forall. intros x Hx.
  rewrite forallb_forall in H. apply H.
  eapply Permutation_in; [symmetry; exact Hp | exact Hx].
Qed.

Lemma scramble_words_plain (w h : string) :
  In (w, h) SCRAMBLE_WORDS -> forallb plain_upper (list_ascii_of_string w) = true.
Proof.
  intros H. simpl in H.
  repeat (destruct H as [H | H]; [injection H as <- <-; reflexivity|]).
  destruct H.
Qed.

End Plain.

(** What a returned puzzle holds. *)
Lemma generate_scramble_returns (fuel : nat) (g g' : rng) (p : scramble_puzzle) :
  generate_scramble fuel g = Some (p, g') ->
  Permutation (list_ascii_of_string (scrambled p)) (list_ascii_of_string (word p))
  /\ scrambled p <> word p
  /\ In (word p, hint p) SCRAMBLE_WORDS.
Proof.
  intros H. unfold generate_scramble in H.
  pose proof (choice_in g) as Hin.
  destruct (choice SCRAMBLE_WORDS (EmptyString, EmptyString) g) as [[w h] g1].
  cbn [fst] in Hin.
  destruct (shuffle (list_ascii_of_string w) g1) as [s g2] eqn:Hsh.
  destruct (reshuffle fuel w s g2) as [[s' g3]|] eqn:Hre; [|discriminate].
  injection H as <- <-. cbn [scrambled word hint].
  apply reshuffle_spec in Hre as [Hperm Hdiff].
  split; [|split; [exact Hdiff | exact Hin]].
  rewrite list_ascii_of_string_of_list_ascii.
  etransitivity; [exact Hperm|].
  change s with (s, g2).1. rewrite <- Hsh. apply shuffle_perm.
Qed.

(** The jumble shown to the player is never the answer: whenever
    [generate_scramble] returns, [verify_scramble] rejects its [scrambled]
    field and accepts its [word] field. *)
Theorem scrambled_form_rejected (fuel : nat) (g g' : rng) (p : scramble_puzzle) :
  generate_scramble fuel g = Some (p, g') ->
  verify_scramble (scrambled p) (word p) = false
  /\ verify_scramble (word p) (word p) = true.
Proof.
  intros H.
  destruct (generate_scramble_returns fuel g g' p H) as (Hperm & Hdiff & Hin).
  pose proof (scramble_words_plain _ _ Hin) as Hword.
  assert (Hscr : forallb plain_upper (list_ascii_of_string (scrambled p)) = true)
    by (eapply forallb_permutation; [symmetry; exact Hperm | exact Hword]).
  pose proof (plain_upper_fixed _ Hword) as Hw.
  pose proof (plain_upper_fixed _ Hscr) as Hs.
  destruct (plain_upper_string _ Hword) as [Hup _].
  rewrite string_of_list_ascii_of_string in Hw, Hs, Hup.
  unfold verify_scramble. rewrite Hs, Hw, Hup. split.
  - now apply String.eqb_neq.
  - apply String.eqb_refl.
Qed.

Lemma scrambled_form_rejected_witness :
  verify_scramble "NCRYPTIONE" "ENCRYPTION" = false
  /\ verify_scramble "ENCRYPTION" "ENCRYPTION" = true.
Proof.
  exact (scrambled_form_rejected 1 (fun _ => 0%nat) _
           (mkScramble "NCRYPTIONE" "ENCRYPTION" "Process of encoding data") eq_refl).
Defined.

(** ** The wheel *)

Section Wheel.

Lemma filter_permutation {A : Type} (f : A -> bool) (l l' : list A) :
  Permutation l l' -> Permutation (List.filter f l) (List.filter f l').
Proof.
  induction 1 as [|x l l' H IH|x y l|l l' l'' H1 IH1 H2 IH2]; simpl.
  - constructor.
  - destruct (f x); [now constructor | exact IH].
  - destruct (f x), (f y); try reflexivity. apply perm_swap.
  - etransitivity; eauto.
Qed.

Lemma fold_append_map {A B : Type} (f : A -> B) (l : list A) (acc : list B) :
  fold_left (fun segments c => segments ++ [f c]) l acc = acc ++ map f l.
Proof.
  revert acc. induction l as [|x l IH]; intros acc; simpl.
  - now rewrite app_nil_r.
  - rewrite IH, <- app_assoc. reflexivity.
Qed.

(** The decoy loop appends [count] segments flagged incorrect, each with a
    character of [all_chars]. *)
Lemma add_decoys_spec (count : nat) (all_chars : list ascii) (segments : list segment)
    (g : rng) :
  all_chars <> [] ->
  exists decoys,
    (add_decoys count all_chars segments g).1 = segments ++ decoys
    /\ List.length decoys = count
    /\ Forall (fun s => is_correct s = false /\ In (char s) all_chars) decoys.
Proof.
  intros Hne. revert segments g. induction count as [|count IH]; intros segments g.
  - exists []. simpl. split; [now rewrite app_nil_r|]. split; [reflexivity | constructor].
  - cbn [add_decoys].
    destruct (choice all_chars "000"%char g) as [decoy g1] eqn:Hchoice.
    destruct (IH (segments ++ [ {| char := decoy; is_correct := false |} ]) g1)
      as (decoys & Hrun & Hlen & Hall).
    exists ({| char := decoy; is_correct := false |} :: decoys).
    split; [rewrite Hrun, <- app_assoc; reflexivity|].
    split; [simpl; now rewrite Hlen|].
    constructor; [|exact Hall]. simpl. split; [reflexivity|].
    assert (Hd : decoy = (choice all_chars "000"%char g).1) by now rewrite Hchoice.
    rewrite Hd. unfold choice, randbelow. cbn [fst].
    apply nth_In. apply Nat.mod_upper_bound. destruct all_chars; simpl; congruence.
Qed.

End Wheel.

(** The wheel has [len(key_part) + max(8 - len(key_part), 4)] segments, at
    least 8.  Those flagged correct are, up to order, the upper-cased
    characters of the key part, one segment per character; the others, the
    decoys, are [max(8 - len(key_part), 4)] characters among the capital
    letters and digits. *)
Theorem generate_wheel_segments_content (key_part : string) (g : rng) :
  let segments := (generate_wheel_segments key_part g).1 in
  let decoy_count := Z.max (8 - len key_part) 4 in
  Z.of_nat (List.length segments) = len key_part + decoy_count
  /\ 8 <= Z.of_nat (List.length segments)
  /\ Permutation (List.filter is_correct segments)
       (map (fun c => {| char := upper_char c; is_correct := true |})
            (list_ascii_of_string key_part))
  /\ Z.of_nat (List.length (List.filter (fun s => negb (is_correct s)) segments))
     = decoy_count
  /\ Forall (fun s => is_correct s = false ->
                      In (char s) (list_ascii_of_string (ascii_uppercase +:+ digits)))
            segments.
Proof.
  intros segments decoy_count.
  set (chars := list_ascii_of_string key_part).
  set (correct := map (fun c => {| char := upper_char c; is_correct := true |}) chars).
  assert (Hchars : Z.of_nat (List.length chars) = len key_part).
  { unfold chars, len. f_equal. clear. induction key_part as [|c s IH]; simpl; congruence. }
  destruct (add_decoys_spec (Z.to_nat decoy_count)
              (list_ascii_of_string (ascii_uppercase +:+ digits)) correct g
              ltac:(discriminate)) as (decoys & Hrun & Hlen & Hall).
  assert (Hperm : Permutation segments (correct ++ decoys)).
  { unfold segments, generate_wheel_segments. fold chars.
    rewrite fold_append_map. simpl app. fold correct. rewrite Hchars. fold decoy_count.
    destruct (add_decoys _ _ correct g) as [segs g1]. simpl in Hrun. subst segs.
    apply shuffle_perm. }
  assert (Hcorrect : List.filter is_correct correct = correct).
  { apply filter_all. intros s Hs. unfold correct in Hs.
    apply in_map_iff in Hs as (c & <- & _). reflexivity. }
  assert (Hnone : List.filter is_correct decoys = []).
  { clear -Hall. induction Hall as [|s l [Hs _] _ IH]; simpl; [reflexivity|].
    now rewrite Hs. }
  assert (Hcorrect' : List.filter (fun s => negb (is_correct s)) correct = []).
  { unfold correct. clear. induction chars; simpl; auto. }
  assert (Hdecoys : List.filter (fun s => negb (is_correct s)) decoys = decoys).
  { apply filter_all. intros s Hs. rewrite List.Forall_forall in Hall.
    destruct (Hall s Hs) as [-> _]. reflexivity. }
  assert (Hsize : Z.of_nat (List.length segments) = len key_part + decoy_count).
  { rewrite (Permutation_length Hperm), length_app, Hlen. unfold correct.
    rewrite length_map. lia. }
  split; [exact Hsize|]. split; [lia|]. split; [|split].
  - rewrite (filter_permutation _ _ _ Hperm), List.filter_app, Hcorrect, Hnone.
    now rewrite app_nil_r.
  - rewrite (Permutation_length (filter_permutation _ _ _ Hperm)).
    rewrite List.filter_app, Hcorrect', Hdecoys. simpl. lia.
  - apply List.Forall_forall. intros s Hs Hfalse.
    eapply Permutation_in in Hs; [|exact Hperm].
    apply in_app_or in Hs as [Hs | Hs].
    + unfold correct in Hs. apply in_map_iff in Hs as (c & <- & _). discriminate.
    + rewrite List.Forall_forall in Hall. now apply Hall.
Qed.

(** ** The memory cards *)

Section Memory.







End Memory.



(** ** More on the completion handlers *)

(** The wheel and the memory game are completed on request: with a
    non-empty key part in the session under the game's key, the handler
    answers success with that key part, records the game as completed with
    it (on a first completion), removes the session entry and leaves the
    other entries alone; the same request again is then rejected as an
    invalid session and changes nothing. *)
Theorem complete_on_request (user : Z) (challenge_id key_part : string)
    (now now2 : datetime) (st : state) :
  key_part <> EmptyString ->
  let done game (handler : Z -> string -> datetime -> state -> response * state) :=
    session st !! (game +:+ "_" +:+ challenge_id) = Some (SKeyPart key_part) ->
    exists body st',
      handler user challenge_id now st = (Ok body, st')
      /\ body !! "success" = Some (PBool true)
      /\ body !! "revealed_part" = Some (PStr key_part)
      /\ db st' = mark_game_completed user challenge_id game key_part 0 now (db st)
      /\ MinigameProgress.has_completed user challenge_id game (db st') = true
      /\ session st' = delete (game +:+ "_" +:+ challenge_id) (session st)
      /\ handler user challenge_id now2 st' = (Ok invalid_session, st') in
  done "wheel"%string wheel_complete /\ done "memory"%string memory_complete.
Proof.
  intros Hne done.
  assert (Hfalsy : str_falsy key_part = false)
    by (destruct key_part; [exfalso; apply Hne; reflexivity | reflexivity]).
  split; intros Hsession.
  - unfold wheel_complete at 1.
    change ("wheel_" +:+ challenge_id) with ("wheel" +:+ "_" +:+ challenge_id).
    rewrite Hsession. simpl session_falsy. rewrite Hfalsy.
    eexists. eexists. split; [reflexivity|].
    split; [reflexivity|]. split; [reflexivity|]. split; [reflexivity|].
    split; [apply mark_has|]. split; [reflexivity|].
    unfold wheel_complete.
    change ("wheel_" +:+ challenge_id) with ("wheel" +:+ "_" +:+ challenge_id).
    cbn [session complete]. now rewrite lookup_delete_eq.
  - unfold memory_complete at 1.
    change ("memory_" +:+ challenge_id) with ("memory" +:+ "_" +:+ challenge_id).
    rewrite Hsession. simpl session_falsy. rewrite Hfalsy.
    eexists. eexists. split; [reflexivity|].
    split; [reflexivity|]. split; [reflexivity|]. split; [reflexivity|].
    split; [apply mark_has|]. split; [reflexivity|].
    unfold memory_complete.
    change ("memory_" +:+ challenge_id) with ("memory" +:+ "_" +:+ challenge_id).
    cbn [session complete]. now rewrite lookup_delete_eq.
Qed.

Lemma complete_on_request_witness :
  let st := {| db := []; session := {[ "wheel_aes_easy"%string := SKeyPart "SE" ]} |} in
  exists body st',
    wheel_complete 7 "aes_easy" 100 st = (Ok body, st')
    /\ body !! "success" = Some (PBool true)
    /\ body !! "revealed_part" = Some (PStr "SE")
    /\ db st' = mark_game_completed 7 "aes_easy" "wheel" "SE" 0 100 []
    /\ MinigameProgress.has_completed 7 "aes_easy" "wheel" (db st') = true
    /\ session st' = delete "wheel_aes_easy"%string (session st)
    /\ wheel_complete 7 "aes_easy" 200 st' = (Ok invalid_session, st').
Proof.
  intros st.
  apply (proj1 (complete_on_request 7 "aes_easy" "SE" 100 200 st ltac:(discriminate))).
  reflexivity.
Defined.



(** ** The pages *)

Section Availability.

Lemma split_key_default_parts (k : string) :
  split_key_default (Some k) = parts_from k (len k / 5) (len k mod 5) (range 5) 0.
Proof.
  unfold split_key_default. now rewrite split_key_parts_from by lia.
Qed.

Lemma default_parts_shape (k : string) :
  let parts := split_key_default (Some k) in
  let m := Z.to_nat (Z.min (len k) 5) in
  map index parts = range (Z.of_nat m)
  /\ map game_type parts = take m minigame_types
  /\ Forall (fun p => value p <> EmptyString) parts
  /\ join (map value parts) = k.
Proof.
  intros parts m.
  assert (Hlen : 0 <= len k) by (unfold len; lia).
  assert (Hidx : map index parts = range (Z.of_nat m)).
  { unfold parts, m. rewrite split_key_default_parts, parts_from_index, kept_indices by lia.
    f_equal. lia. }
  split; [exact Hidx|]. split; [|split].
  - unfold parts in *. rewrite split_key_default_parts in *.
    rewrite parts_from_game_type, Hidx. unfold range. rewrite Nat2Z.id.
    assert (Hm : (m <= 5)%nat) by (unfold m; lia). clear -Hm.
    do 6 (destruct m as [|m]; [reflexivity|]). lia.
  - unfold parts. rewrite split_key_default_parts.
    pose proof (parts_from_shape k (len k / 5) (len k mod 5) (range 5) 0
                  ltac:(lia) ltac:(rewrite consumed_all by lia; lia)) as Hshape.
    assert (Hpos : Forall (fun i => part_size (len k / 5) (len k mod 5) i > 0)
                     (map index (parts_from k (len k / 5) (len k mod 5) (range 5) 0))).
    { rewrite parts_from_index. apply List.Forall_forall. intros i Hi.
      apply filter_In in Hi as [_ Hi]. now apply Z.gtb_lt in Hi; lia. }
    rewrite List.Forall_forall in Hshape, Hpos. apply List.Forall_forall.
    intros p Hp Hempty.
    destruct (Hshape p Hp) as [Hl _].
    specialize (Hpos (index p) (in_map index _ p Hp)).
    rewrite Hempty in Hl. change (len EmptyString) with 0 in Hl. lia.
  - apply (split_key_join k 5); [lia|]. unfold parts.
    rewrite split_key_default_parts. apply split_key_parts_from. lia.
Qed.

Lemma part_of_found (l : list KeyPart) (i : nat) (p : KeyPart) :
  List.NoDup (map game_type l) -> l !! i = Some p -> part_of (game_type p) l = Some p.
Proof.
  revert i. induction l as [|q l IH]; intros i Hnd Hi; [discriminate|].
  simpl in Hnd. apply List.NoDup_cons_iff in Hnd as [Hq Hnd].
  unfold part_of. simpl. destruct i as [|i]; simpl in Hi.
  - injection Hi as ->. now rewrite String.eqb_refl.
  - destruct (String.eqb_spec (game_type q) (game_type p)) as [Heq | Hne].
    + exfalso. apply Hq. rewrite Heq. apply in_map.
      apply list_elem_of_In. eapply list_elem_of_lookup_2. exact Hi.
    + now apply (IH i).
Qed.

Lemma part_of_absent (l : list KeyPart) (game : string) :
  ~ In game (map game_type l) -> part_of game l = None.
Proof.
  induction l as [|q l IH]; intros Hout; [reflexivity|].
  unfold part_of. simpl.
  destruct (String.eqb_spec (game_type q) game) as [Heq | Hne].
  - exfalso. apply Hout. left. exact Heq.
  - apply IH. intros Hin. apply Hout. now right.
Qed.


End Availability.

(** The part of the game at place [pos] of the cycle. *)
Lemma game_parts (k : string) (pos : nat) :
  (pos < 5)%nat ->
  let game := nth pos minigame_types EmptyString in
  let parts := split_key_default (Some k) in
  (len k <= Z.of_nat pos -> part_of game parts = None)
  /\ (Z.of_nat pos < len k ->
      exists p, part_of game parts = Some p
                /\ parts !! pos = Some p
                /\ index p = Z.of_nat pos
                /\ game_type p = game
                /\ value p <> EmptyString).
Proof.
  intros Hpos game parts.
  destruct (default_parts_shape k) as (Hidx & Hgames & Hvalues & _).
  fold parts in Hidx, Hgames, Hvalues.
  set (m := Z.to_nat (Z.min (len k) 5)) in *.
  assert (Hlen : 0 <= len k) by (unfold len; lia).
  assert (Hm : (m <= 5)%nat) by (unfold m; lia).
  assert (Hnd : List.NoDup (map game_type parts)).
  { rewrite Hgames. clear -Hm.
    do 6 (destruct m as [|m]; [repeat constructor; simpl; intuition discriminate|]). lia. }
  split.
  - intros Hshort. apply part_of_absent. rewrite Hgames.
    assert (Hmp : (m <= pos)%nat) by (unfold m; lia). unfold game. clear -Hmp Hpos Hm.
    do 5 (destruct pos as [|pos];
          [do 6 (destruct m as [|m]; [try lia; simpl; intuition discriminate|]); lia|]).
    lia.
  - intros Hlong.
    assert (Hpm : (pos < m)%nat) by (unfold m; lia).
    assert (Hsize : List.length parts = m).
    { rewrite <- (length_map index), Hidx. unfold range.
      now rewrite length_map, length_seq, Nat2Z.id. }
    destruct (lookup_lt_is_Some_2 parts pos ltac:(lia)) as [p Hp].
    assert (Hgame : game_type p = game).
    { assert (H : map game_type parts !! pos = Some (game_type p))
        by (rewrite list_lookup_fmap, Hp; reflexivity).
      rewrite Hgames, lookup_take_lt in H by lia.
      unfold game. symmetry. now apply nth_lookup_Some. }
    exists p. split; [rewrite <- Hgame; eapply part_of_found; eauto|].
    split; [exact Hp|]. split; [|split; [exact Hgame|]].
    + assert (H : map index parts !! pos = Some (index p))
        by (rewrite list_lookup_fmap, Hp; reflexivity).
      rewrite Hidx in H. unfold range in H. rewrite Nat2Z.id in H.
      rewrite list_lookup_fmap in H.
      rewrite lookup_seq_lt in H by lia. simpl in H. congruence.
    + rewrite List.Forall_forall in Hvalues. apply Hvalues.
      apply list_elem_of_In. eapply list_elem_of_lookup_2. exact Hp.
Qed.

(** Which games a challenge offers: with a key of [len] characters, the game
    at place [pos] of the cycle wheel, quiz, memory, slider, scramble has a
    part exactly when [pos < len]; the part found for it is then the one at
    place [pos] of the split, non-empty, with index [pos].  A key of up to
    four characters leaves the last games without a part. *)
Theorem game_available (k : string) (pos : nat) :
  (pos < 5)%nat ->
  let game := nth pos minigame_types EmptyString in
  let parts := split_key_default (Some k) in
  (len k <= Z.of_nat pos -> part_of game parts = None)
  /\ (Z.of_nat pos < len k ->
      exists p, part_of game parts = Some p
                /\ parts !! pos = Some p
                /\ index p = Z.of_nat pos
                /\ game_type p = game
                /\ value p <> EmptyString).
Proof. exact (game_parts k pos). Qed.

Lemma game_available_witness :
  part_of "slider" (split_key_default (Some "ABC"%string)) = None
  /\ exists p, part_of "memory" (split_key_default (Some "ABC"%string)) = Some p
               /\ split_key_default (Some "ABC"%string) !! 2%nat = Some p
               /\ index p = 2
               /\ game_type p = "memory"%string
               /\ value p <> EmptyString.
Proof.
  split.
  - apply (proj1 (game_available "ABC" 3 ltac:(lia))). vm_compute. discriminate.
  - apply (proj2 (game_available "ABC" 2 ltac:(lia))). reflexivity.
Defined.

(** ** The session entries *)

Section Session.

Ltac other_prefix :=
  let H := fresh "H" in
  intros H; vm_compute in H; discriminate H.

Lemma wheel_memory a b : "wheel_" +:+ a <> "memory_" +:+ b. Proof. other_prefix. Qed.
Lemma wheel_slider a b : "wheel_" +:+ a <> "slider_" +:+ b. Proof. other_prefix. Qed.
Lemma memory_slider a b : "memory_" +:+ a <> "slider_" +:+ b. Proof. other_prefix. Qed.







End Session.



(** ** Playing a game through *)

Section PlayThrough.

Variable tbl : challenges.
Variable user : Z.
Variable challenge_id : string.

(** The dict entry a first completion makes. *)
Lemma first_entry (game revealed : string) (i : Z) (now : datetime)
    (db : MinigameProgress.table) :
  MinigameProgress.has_completed user challenge_id game db = false ->
  get_user_progress user challenge_id
    (mark_game_completed user challenge_id game revealed i now db) !! game
  = Some {| completed := true; entry_revealed_part := revealed;
            entry_completed_at := Some now |}.
Proof.
  intros Hfresh. unfold mark_game_completed. rewrite Hfresh. simpl.
  unfold get_user_progress, MinigameProgress.get_user_progress.
  rewrite List.filter_app. simpl.
  rewrite row_of_refl by reflexivity.
  rewrite fold_left_app. simpl. apply lookup_insert_eq.
Qed.

(** What the revealed key shows after a completion. *)
Lemma revealed_after (game revealed : string) (i : Z) (now : datetime)
    (db : MinigameProgress.table) (key_parts : list KeyPart) :
  get_revealed_key user challenge_id key_parts
    (mark_game_completed user challenge_id game revealed i now db)
  = join (map (fun p =>
                 if String.eqb (game_type p) game then value p
                 else shown user challenge_id db p)
              key_parts).
Proof.
  rewrite get_revealed_key_join. f_equal. apply map_ext. intros p.
  unfold shown. rewrite has_completed_after.
  rewrite Z.eqb_refl, String.eqb_refl. simpl.
  rewrite (String.eqb_sym game).
  destruct (String.eqb (game_type p) game); [now rewrite orb_true_r|].
  now rewrite orb_false_r.
Qed.

End PlayThrough.

(** Playing the wheel or the memory game through.  For an active challenge
    with key [k], a user who has not completed the game, and a key long
    enough to give the game a part: when the page route serves the game, it
    leaves the progress table alone and keeps that part of the key in the
    session; the completion request that follows succeeds with that part,
    the progress dict then holds it under the game, the revealed key of the
    challenge shows the part (and the other parts as before), and the page
    route from then on redirects to the hub as already completed. *)
Theorem play_wheel_and_memory (tbl : challenges) (user : Z) (challenge_id k : string)
    (c : Challenge.t) (fuel : nat) (now : datetime) (st : state) (g : rng) :
  active_challenge challenge_id tbl = Some c ->
  get_challenge_key challenge_id tbl = Some k ->
  let parts := split_key_default (Some k) in
  let played (game : string) (pos : nat) (route : state -> rng -> served)
             (handler : Z -> string -> datetime -> state -> response * state) :=
    Z.of_nat pos < len k ->
    MinigameProgress.has_completed user challenge_id game (db st) = false ->
    forall r st1 g1,
      route st g = Some (inr (r, st1, g1)) ->
      exists p body st2,
        parts !! pos = Some p
        /\ flashed r = []
        /\ db st1 = db st
        /\ session st1
           = <[ game +:+ "_" +:+ challenge_id := SKeyPart (value p) ]> (session st)
        /\ handler user challenge_id now st1 = (Ok body, st2)
        /\ body !! "success" = Some (PBool true)
        /\ body !! "revealed_part" = Some (PStr (value p))
        /\ get_user_progress user challenge_id (db st2) !! game
           = Some {| completed := true; entry_revealed_part := value p;
                     entry_completed_at := Some now |}
        /\ get_revealed_key user challenge_id parts (db st2)
           = join (map (fun q => if String.eqb (game_type q) game then value q
                                 else shown user challenge_id (db st) q) parts)
        /\ route st2 g1
           = to_hub challenge_id ("Already completed! Key part: " +:+ value p)
               "success" st2 g1 in
  played "wheel"%string 0%nat (wheel_spin tbl user challenge_id) wheel_complete
  /\ played "memory"%string 2%nat (memory_game fuel tbl user challenge_id) memory_complete.
Proof.
  intros Hactive Hkey parts played. subst played. cbv beta.
  split; intros Hlong Hfresh r st1 g1 Hroute.
  - destruct (proj2 (game_parts k 0 ltac:(lia)) Hlong) as (p & Hpart & Hat & _ & _ & Hne).
    fold parts in Hpart, Hat. change (nth 0 minigame_types EmptyString) with "wheel"%string in Hpart.
    assert (Hfalsy : str_falsy (value p) = false)
      by (destruct (value p); [exfalso; apply Hne; reflexivity | reflexivity]).
    unfold wheel_spin in Hroute. rewrite Hactive, Hkey in Hroute. fold parts in Hroute.
    rewrite Hpart, is_completed_has_completed, Hfresh in Hroute.
    destruct (generate_wheel_segments (value p) g) as [segs g'].
    injection Hroute as <- <- <-.
    exists p. eexists. eexists.
    split; [exact Hat|]. split; [reflexivity|]. split; [reflexivity|].
    split; [reflexivity|].
    unfold wheel_complete at 1. cbn [session]. rewrite lookup_insert_eq.
    simpl session_falsy. rewrite Hfalsy.
    split; [reflexivity|]. split; [reflexivity|]. split; [reflexivity|].
    cbn [db complete]. split; [now apply first_entry|].
    split; [apply revealed_after|].
    unfold wheel_spin. rewrite Hactive, Hkey. fold parts. rewrite Hpart.
    rewrite is_completed_has_completed. cbn [db complete]. now rewrite mark_has.
  - destruct (proj2 (game_parts k 2 ltac:(lia)) Hlong) as (p & Hpart & Hat & _ & _ & Hne).
    fold parts in Hpart, Hat. change (nth 2 minigame_types EmptyString) with "memory"%string in Hpart.
    assert (Hfalsy : str_falsy (value p) = false)
      by (destruct (value p); [exfalso; apply Hne; reflexivity | reflexivity]).
    unfold memory_game in Hroute. rewrite Hactive, Hkey in Hroute. fold parts in Hroute.
    rewrite Hpart, is_completed_has_completed, Hfresh in Hroute.
    destruct (generate_memory_cards fuel (value p) g) as [[e | [cards g']]|];
      try discriminate.
    injection Hroute as <- <- <-.
    exists p. eexists. eexists.
    split; [exact Hat|]. split; [reflexivity|]. split; [reflexivity|].
    split; [reflexivity|].
    unfold memory_complete at 1. cbn [session]. rewrite lookup_insert_eq.
    simpl session_falsy. rewrite Hfalsy.
    split; [reflexivity|]. split; [reflexivity|]. split; [reflexivity|].
    cbn [db complete]. split; [now apply first_entry|].
    split; [apply revealed_after|].
    unfold memory_game. rewrite Hactive, Hkey. fold parts. rewrite Hpart.
    rewrite is_completed_has_completed. cbn [db complete]. now rewrite mark_has.
Qed.

Lemma play_wheel_and_memory_witness :
  let c := Challenge.mk "aes_easy" "aes" "easy" "Decrypt" "10" (PList [])
             "AES:SECRET12:3q2+7w==" "flag{a}" (Some true) PNone in
  let st := {| db := []; session := ∅ |} in
  exists r st1 g1,
    wheel_spin [c] 7 "aes_easy" st (fun i => i) = Some (inr (r, st1, g1))
    /\ exists p body st2,
         split_key_default (Some "SECRET12"%string) !! 0%nat = Some p
         /\ wheel_complete 7 "aes_easy" 100 st1 = (Ok body, st2)
         /\ body !! "revealed_part" = Some (PStr (value p))
         /\ get_revealed_key 7 "aes_easy" (split_key_default (Some "SECRET12"%string)) (db st2)
            = "SE******"%string.
Proof.
  intros c st. eexists. eexists. eexists. split; [vm_compute; reflexivity|].
  destruct (proj1 (play_wheel_and_memory [c] 7 "aes_easy" "SECRET12" c 1 100 st (fun i => i)
                     eq_refl eq_refl) ltac:(vm_compute; reflexivity) eq_refl _ _ _ eq_refl)
    as (p & body & st2 & Hp & _ & _ & _ & Hdone & _ & Hpart & _ & Hkey & _).
  exists p, body, st2. split; [exact Hp|]. split; [exact Hdone|]. split; [exact Hpart|].
  rewrite Hkey. reflexivity.
Defined.

(** Three questions are served. *)
Lemma three_questions (g : rng) :
  exists questions g',
    get_quiz_questions 3 g = inr (questions, g') /\ List.length questions = 3%nat.
Proof.
  unfold get_quiz_questions, sample. simpl andb. cbv iota.
  destruct (sample_pool_spec (mkQuestion EmptyString [] 0) 3
              (List.length QUIZ_QUESTIONS) QUIZ_QUESTIONS g ltac:(simpl; lia) ltac:(lia))
    as [Hlen _].
  change (Z.to_nat (Z.min 3 (Z.of_nat (List.length QUIZ_QUESTIONS)))) with 3%nat.
  destruct (sample_pool 3 _ QUIZ_QUESTIONS _ g) as [questions g'].
  exists questions, g'. split; [reflexivity | exact Hlen].
Qed.

(** A word of the list is accepted as the answer to itself. *)
Lemma word_accepted (w h : string) :
  In (w, h) SCRAMBLE_WORDS -> verify_scramble w w = true.
Proof.
  intros Hin. pose proof (scramble_words_plain _ _ Hin) as Hplain.
  pose proof (plain_upper_fixed _ Hplain) as Hfix.
  destruct (plain_upper_string _ Hplain) as [Hup _].
  rewrite string_of_list_ascii_of_string in Hfix, Hup.
  unfold verify_scramble. rewrite Hfix, Hup. apply String.eqb_refl.
Qed.

(** Playing the quiz, the slider or the scramble through.  For an active
    challenge with key [k], a user who has not completed the game, and a key
    long enough to give the game a part: when the page route serves the
    game, it leaves the progress table alone and keeps in the session that
    part of the key (with the three questions served, or the word chosen);
    the stored answers of the questions served, the solved board, or the
    word itself are then accepted, the completion succeeds with that part,
    the progress dict holds it under the game, and the page route from then
    on redirects to the hub as already completed. *)
Theorem play_quiz_slider_scramble (tbl : challenges) (user : Z) (challenge_id k : string)
    (c : Challenge.t) (fuel : nat) (now : datetime) (st : state) (g : rng) :
  active_challenge challenge_id tbl = Some c ->
  get_challenge_key challenge_id tbl = Some k ->
  let parts := split_key_default (Some k) in
  let completed_with (game : string) (p : KeyPart) (out : response * state)
                     (again : state -> served) :=
    exists body,
      out.1 = Ok body
      /\ body !! "success" = Some (PBool true)
      /\ body !! "revealed_part" = Some (PStr (value p))
      /\ get_user_progress user challenge_id (db out.2) !! game
         = Some {| completed := true; entry_revealed_part := value p;
                   entry_completed_at := Some now |}
      /\ exists r g', again out.2 = Some (inr (r, out.2, g'))
                      /\ page r = Redirect "minigames.minigames_hub" (Some challenge_id) in
  (1 < len k ->
   MinigameProgress.has_completed user challenge_id "quiz" (db st) = false ->
   exists p questions r st1 g1,
     quiz_game tbl user challenge_id st g = Some (inr (r, st1, g1))
     /\ parts !! 1%nat = Some p
     /\ page r = QuizPage c questions
     /\ List.length questions = 3%nat
     /\ db st1 = db st
     /\ session st1 = <[ "quiz_" +:+ challenge_id := SQuiz questions (value p) ]> (session st)
     /\ completed_with "quiz"%string p
          (quiz_submit user challenge_id (Some (map answer questions)) now st1)
          (fun st2 => quiz_game tbl user challenge_id st2 g1))
  /\ (3 < len k ->
      MinigameProgress.has_completed user challenge_id "slider" (db st) = false ->
      exists p board r st1 g1,
        slider_puzzle tbl user challenge_id st g = Some (inr (r, st1, g1))
        /\ parts !! 3%nat = Some p
        /\ page r = SliderPage c board
        /\ db st1 = db st
        /\ session st1 = <[ "slider_" +:+ challenge_id := SKeyPart (value p) ]> (session st)
        /\ completed_with "slider"%string p
             (slider_complete user challenge_id (Some [1; 2; 3; 4; 5; 6; 7; 8; 0]) now st1)
             (fun st2 => slider_puzzle tbl user challenge_id st2 g1))
  /\ (4 < len k ->
      MinigameProgress.has_completed user challenge_id "scramble" (db st) = false ->
      forall r st1 g1,
        scramble_game fuel tbl user challenge_id st g = Some (inr (r, st1, g1)) ->
        exists p data,
          parts !! 4%nat = Some p
          /\ page r = ScramblePage c (scrambled data) (hint data)
          /\ db st1 = db st
          /\ session st1
             = <[ "scramble_" +:+ challenge_id := SScramble (word data) (value p) ]>
                 (session st)
          /\ completed_with "scramble"%string p
               (scramble_submit user challenge_id (Some (word data)) now st1)
               (fun st2 => scramble_game fuel tbl user challenge_id st2 g1)).
Proof.
  intros Hactive Hkey parts completed_with. subst completed_with. cbv beta.
  split; [|split].
  - intros Hlong Hfresh.
    destruct (proj2 (game_parts k 1 ltac:(lia)) ltac:(lia)) as (p & Hpart & Hat & _ & _ & Hne).
    fold parts in Hpart, Hat.
    change (nth 1 minigame_types EmptyString) with "quiz"%string in Hpart.
    destruct (three_questions g) as (questions & g' & Hq & Hlen).
    exists p, questions. eexists. eexists. eexists.
    split.
    { unfold quiz_game. rewrite Hactive, Hkey. fold parts.
      rewrite Hpart, is_completed_has_completed, Hfresh, Hq. reflexivity. }
    split; [exact Hat|]. split; [reflexivity|]. split; [exact Hlen|].
    split; [reflexivity|]. split; [reflexivity|].
    unfold quiz_submit. cbn [session]. rewrite lookup_insert_eq.
    simpl session_falsy. cbv iota. simpl default.
    rewrite verify_quiz_answers_points, points_perfect, Hlen.
    change (Z.of_nat 3 >=? 2) with true. cbv iota.
    eexists. split; [reflexivity|]. split; [reflexivity|]. split; [reflexivity|].
    cbn [snd]. split; [cbn [db complete]; now apply first_entry|].
    eexists. eexists. split.
    { unfold quiz_game. rewrite Hactive, Hkey. fold parts. rewrite Hpart.
      rewrite is_completed_has_completed. cbn [db complete]. rewrite mark_has.
      reflexivity. }
    reflexivity.
  - intros Hlong Hfresh.
    destruct (proj2 (game_parts k 3 ltac:(lia)) ltac:(lia)) as (p & Hpart & Hat & _ & _ & Hne).
    fold parts in Hpart, Hat.
    change (nth 3 minigame_types EmptyString) with "slider"%string in Hpart.
    assert (Hfalsy : str_falsy (value p) = false)
      by (destruct (value p); [exfalso; apply Hne; reflexivity | reflexivity]).
    destruct (slide_loop_spec 100 (range2 1 9 ++ [0]) g ltac:(reflexivity))
      as (board & g' & Hrun & _).
    exists p, board. eexists. eexists. eexists.
    split.
    { unfold slider_puzzle. rewrite Hactive, Hkey. fold parts.
      rewrite Hpart, is_completed_has_completed, Hfresh.
      unfold generate_slider_puzzle. rewrite Hrun. reflexivity. }
    split; [exact Hat|]. split; [reflexivity|].
    split; [reflexivity|]. split; [reflexivity|].
    unfold slider_complete. cbn [session]. rewrite lookup_insert_eq.
    simpl session_falsy. rewrite Hfalsy. simpl default.
    change (verify_slider_solution [1; 2; 3; 4; 5; 6; 7; 8; 0]) with true. cbv iota.
    eexists. split; [reflexivity|]. split; [reflexivity|]. split; [reflexivity|].
    cbn [snd]. split; [cbn [db complete]; now apply first_entry|].
    eexists. eexists. split.
    { unfold slider_puzzle. rewrite Hactive, Hkey. fold parts. rewrite Hpart.
      rewrite is_completed_has_completed. cbn [db complete]. rewrite mark_has.
      reflexivity. }
    reflexivity.
  - intros Hlong Hfresh r st1 g1 Hroute.
    destruct (proj2 (game_parts k 4 ltac:(lia)) ltac:(lia)) as (p & Hpart & Hat & _ & _ & Hne).
    fold parts in Hpart, Hat.
    change (nth 4 minigame_types EmptyString) with "scramble"%string in Hpart.
    unfold scramble_game in Hroute. rewrite Hactive, Hkey in Hroute. fold parts in Hroute.
    rewrite Hpart, is_completed_has_completed, Hfresh in Hroute.
    destruct (generate_scramble fuel g) as [[data g']|] eqn:Hgen; [|discriminate].
    injection Hroute as <- <- <-.
    destruct (generate_scramble_returns fuel g g' data Hgen) as (_ & _ & Hin).
    exists p, data.
    split; [exact Hat|]. split; [reflexivity|].
    split; [reflexivity|]. split; [reflexivity|].
    unfold scramble_submit. cbn [session]. rewrite lookup_insert_eq.
    simpl session_falsy. cbv iota. simpl default.
    rewrite (word_accepted _ _ Hin).
    eexists. split; [reflexivity|]. split; [reflexivity|]. split; [reflexivity|].
    cbn [snd]. split; [cbn [db complete]; now apply first_entry|].
    eexists. eexists. split.
    { unfold scramble_game. rewrite Hactive, Hkey. fold parts. rewrite Hpart.
      rewrite is_completed_has_completed. cbn [db complete]. rewrite mark_has.
      reflexivity. }
    reflexivity.
Qed.

Lemma play_quiz_slider_scramble_witness :
  let c := Challenge.mk "aes_easy" "aes" "easy" "Decrypt" "10" (PList [])
             "AES:SECRET12:3q2+7w==" "flag{a}" (Some true) PNone in
  let st := {| db := []; session := ∅ |} in
  (exists p questions r st1 g1,
      quiz_game [c] 7 "aes_easy" st (fun i => i) = Some (inr (r, st1, g1))
      /\ split_key_default (Some "SECRET12"%string) !! 1%nat = Some p
      /\ exists body,
           (quiz_submit 7 "aes_easy" (Some (map answer questions)) 100 st1).1 = Ok body
           /\ body !! "revealed_part" = Some (PStr (value p)))
  /\ (exists p board r st1 g1,
         slider_puzzle [c] 7 "aes_easy" st (fun i => i) = Some (inr (r, st1, g1))
         /\ page r = SliderPage c board
         /\ split_key_default (Some "SECRET12"%string) !! 3%nat = Some p).
Proof.
  intros c st.
  destruct (play_quiz_slider_scramble [c] 7 "aes_easy" "SECRET12" c 1 100 st (fun i => i)
              eq_refl eq_refl) as (Hquiz & Hslider & _).
  split.
  - destruct (Hquiz ltac:(vm_compute; reflexivity) eq_refl)
      as (p & questions & r & st1 & g1 & Hroute & Hp & _ & _ & _ & _ & body & Hb & _ & Hr & _).
    exists p, questions, r, st1, g1. split; [exact Hroute|]. split; [exact Hp|].
    exists body. split; assumption.
  - destruct (Hslider ltac:(vm_compute; reflexivity) eq_refl)
      as (p & board & r & st1 & g1 & Hroute & Hp & Hpage & _).
    exists p, board, r, st1, g1. split; [exact Hroute|]. split; assumption.
Defined.

(** ** The hub *)

Lemma progress_all_completed (rows : list MinigameProgress.t)
    (m : gmap string progress_entry) :
  (forall g e, m !! g = Some e -> completed e = true) ->
  forall g e,
    fold_left
      (fun res record =>
         <[ MinigameProgress.minigame_type record :=
              {| completed := true;
                 entry_revealed_part := MinigameProgress.revealed_part record;
                 entry_completed_at := MinigameProgress.completed_at record |} ]> res)
      rows m !! g = Some e ->
    completed e = true.
Proof.
  revert m. induction rows as [|r rows IH]; intros m Hm g e H; simpl in H.
  - eapply Hm; eauto.
  - eapply IH; [|exact H]. intros g' e' H'.
    destruct (decide (MinigameProgress.minigame_type r = g')) as [<- | Hne].
    + rewrite lookup_insert_eq in H'. injection H' as <-. reflexivity.
    + rewrite lookup_insert_ne in H' by exact Hne. eapply Hm; eauto.
Qed.

Lemma get_user_progress_completed (user : Z) (challenge game : string)
    (db : MinigameProgress.table) (e : progress_entry) :
  get_user_progress user challenge db !! game = Some e -> completed e = true.
Proof.
  apply progress_all_completed. intros g e' H. rewrite lookup_empty in H. discriminate.
Qed.

(** The hub of an active challenge shows, for each part of the key, the
    revealed part stored in the progress ledger when the part's game is
    completed (not the part of the key as it is now), and stars otherwise.
    When the stored parts are the parts of the key, this is the revealed key
    of the unchanged parts and it is as long as the key. *)
Theorem hub_shows_stored_parts (tbl : challenges) (user : Z) (challenge_id k : string)
    (c : Challenge.t) (st : state) :
  active_challenge challenge_id tbl = Some c ->
  get_challenge_key challenge_id tbl = Some k ->
  let parts := split_key_default (Some k) in
  let progress := get_user_progress user challenge_id (db st) in
  exists key_parts revealed_key,
    minigames_hub tbl user challenge_id st
    = {| page := HubPage c key_parts revealed_key progress; flashed := [] |}
    /\ revealed_key
       = join (map (fun p => match progress !! game_type p with
                             | Some e => entry_revealed_part e
                             | None => repeat_char "*" (String.length (value p))
                             end) parts)
    /\ map game_type key_parts = map game_type parts
    /\ map revealed key_parts
       = map (fun p => MinigameProgress.has_completed user challenge_id (game_type p) (db st))
             parts
    /\ ((forall p e, In p parts -> progress !! game_type p = Some e ->
                     entry_revealed_part e = value p) ->
        revealed_key = get_revealed_key user challenge_id parts (db st)
        /\ String.length revealed_key = String.length k).
Proof.
  intros Hactive Hkey parts progress.
  unfold minigames_hub. rewrite Hactive, Hkey. fold parts. fold progress.
  eexists. eexists. split; [reflexivity|].
  assert (Hshown : forall p,
    shown user challenge_id (db st) (mark_revealed progress p)
    = match progress !! game_type p with
      | Some e => entry_revealed_part e
      | None => repeat_char "*" (String.length (value p))
      end).
  { intros p. unfold shown, mark_revealed.
    destruct (progress !! game_type p) as [e|] eqn:He.
    - rewrite (get_user_progress_completed _ _ _ _ _ He). simpl.
      rewrite <- is_completed_has_completed. fold progress. unfold is_completed.
      rewrite He. now rewrite (get_user_progress_completed _ _ _ _ _ He).
    - rewrite <- is_completed_has_completed. fold progress. unfold is_completed.
      now rewrite He. }
  assert (Hkeyform : get_revealed_key user challenge_id (map (mark_revealed progress) parts)
                       (db st)
                     = join (map (fun p => match progress !! game_type p with
                                           | Some e => entry_revealed_part e
                                           | None => repeat_char "*" (String.length (value p))
                                           end) parts)).
  { rewrite get_revealed_key_join, map_map. f_equal. apply map_ext. exact Hshown. }
  split; [exact Hkeyform|]. split; [|split].
  - rewrite map_map. apply map_ext. intros p. unfold mark_revealed.
    destruct (progress !! game_type p) as [e|]; [destruct (completed e)|]; reflexivity.
  - rewrite map_map. apply map_ext_in. intros p Hp.
    rewrite <- is_completed_has_completed. fold progress.
    unfold mark_revealed, is_completed.
    destruct (progress !! game_type p) as [e|] eqn:He.
    + rewrite (get_user_progress_completed _ _ _ _ _ He). reflexivity.
    + destruct (default_parts_shape k) as (_ & _ & _ & _).
      assert (Hrev : Forall (fun q => revealed q = false) parts).
      { unfold parts. rewrite split_key_default_parts.
        pose proof (parts_from_shape k (len k / 5) (len k mod 5) (range 5) 0
                      ltac:(lia) ltac:(rewrite consumed_all by lia; unfold len; lia)) as H.
        eapply List.Forall_impl; [|exact H]. simpl. tauto. }
      rewrite List.Forall_forall in Hrev. now apply Hrev.
  - intros Hsame.
    assert (Heq : get_revealed_key user challenge_id (map (mark_revealed progress) parts)
                    (db st)
                  = get_revealed_key user challenge_id parts (db st)).
    { rewrite Hkeyform, get_revealed_key_join. f_equal. apply map_ext_in. intros p Hp.
      unfold shown. rewrite <- is_completed_has_completed. fold progress.
      unfold is_completed.
      destruct (progress !! game_type p) as [e|] eqn:He; [|reflexivity].
      rewrite (get_user_progress_completed _ _ _ _ _ He). now apply Hsame. }
    split; [exact Heq|]. rewrite Heq, get_revealed_key_join, length_join, map_map.
    destruct (default_parts_shape k) as (_ & _ & _ & Hjoin). fold parts in Hjoin.
    transitivity (String.length (join (map value parts))); [|now rewrite Hjoin].
    rewrite length_join, map_map. f_equal.
    apply map_ext. intros p. apply length_shown.
Qed.

Lemma hub_shows_stored_parts_witness :
  let c := Challenge.mk "aes_easy" "aes" "easy" "Decrypt" "10" (PList [])
             "AES:SECRET12:3q2+7w==" "flag{a}" (Some true) PNone in
  let stale := {| db := mark_game_completed 7 "aes_easy" "wheel" "OLDKEY" 0 100 [];
                  session := ∅ |} in
  exists key_parts revealed_key progress,
    minigames_hub [c] 7 "aes_easy" stale
    = {| page := HubPage c key_parts revealed_key progress; flashed := [] |}
    /\ revealed_key = "OLDKEY******"%string
    /\ map revealed key_parts = [true; false; false; false; false].
Proof.
  intros c stale.
  destruct (hub_shows_stored_parts [c] 7 "aes_easy" "SECRET12" c stale eq_refl eq_refl)
    as (key_parts & revealed_key & Hhub & Hkey & _ & Hrev & _).
  exists key_parts, revealed_key. eexists. split; [exact Hhub|].
  split; [rewrite Hkey; vm_compute; reflexivity | rewrite Hrev; reflexivity].
Defined.

(** ** Further edge behaviour *)

(** Should the ledger hold several rows for one game of a user and challenge
    (sequential calls never make a second), the progress dict shows the row
    inserted last: appending a row of the user and challenge replaces the
    entry of its game, and appending a row of another user or challenge
    changes nothing. *)
Theorem progress_last_row_wins (user : Z) (challenge : string)
    (db : MinigameProgress.table) (r : MinigameProgress.t) :
  (MinigameProgress.user_id r = user -> MinigameProgress.challenge_id r = challenge ->
   get_user_progress user challenge (db ++ [r])
   = <[ MinigameProgress.minigame_type r :=
          {| completed := true;
             entry_revealed_part := MinigameProgress.revealed_part r;
             entry_completed_at := MinigameProgress.completed_at r |} ]>
       (get_user_progress user challenge db))
  /\ (MinigameProgress.user_id r <> user \/ MinigameProgress.challenge_id r <> challenge ->
      get_user_progress user challenge (db ++ [r]) = get_user_progress user challenge db).
Proof.
  unfold get_user_progress, MinigameProgress.get_user_progress.
  rewrite List.filter_app. simpl. split.
  - intros Hu Hc. rewrite row_of_refl by assumption. now rewrite fold_left_app.
  - intros Hother. unfold MinigameProgress.row_of.
    destruct (Z.eqb_spec (MinigameProgress.user_id r) user) as [Hu | Hu]; simpl;
      [|now rewrite app_nil_r].
    destruct (String.eqb_spec (MinigameProgress.challenge_id r) challenge) as [Hc | Hc];
      simpl; [|now rewrite app_nil_r].
    tauto.
Qed.

Lemma progress_last_row_wins_witness :
  let first := MinigameProgress.mk 1 7 "aes_easy" "wheel" 0 "SE" (Some 100) in
  let second := MinigameProgress.mk 2 7 "aes_easy" "wheel" 0 "XY" (Some 200) in
  get_user_progress 7 "aes_easy" ([first] ++ [second]) !! "wheel"
  = Some (mkEntry true "XY" (Some 200)).
Proof.
  intros first second.
  rewrite (proj1 (progress_last_row_wins 7 "aes_easy" [first] second) eq_refl eq_refl).
  apply lookup_insert_eq.
Defined.

Lemma take_lookup_same {A : Type} (l : list A) (n i : nat) :
  (i < n)%nat -> take n l !! i = l !! i.
Proof. intros H. now apply lookup_take_lt. Qed.

(** Only the answers at the places of the questions count: answers beyond
    the number of questions served are ignored. *)
Theorem verify_quiz_answers_positional (questions : list quiz_question)
    (answers extra : list Z) :
  verify_quiz_answers questions answers
  = verify_quiz_answers questions (take (List.length questions) answers)
  /\ ((List.length questions <= List.length answers)%nat ->
      verify_quiz_answers questions (answers ++ extra)
      = verify_quiz_answers questions answers).
Proof.
  assert (Htake : forall ans,
    points questions ans = points questions (take (List.length questions) ans)).
  { intros ans. unfold points. f_equal. apply filter_ext_in. intros i Hi.
    apply in_seq in Hi. unfold earns_point.
    now rewrite take_lookup_same by lia. }
  split.
  - rewrite !verify_quiz_answers_points. now rewrite <- Htake.
  - intros Hlen. rewrite !verify_quiz_answers_points.
    rewrite (Htake (answers ++ extra)), (Htake answers).
    now rewrite take_app_le by lia.
Qed.

Lemma verify_quiz_answers_positional_witness :
  verify_quiz_answers (take 3 QUIZ_QUESTIONS) ([0; 2; 0] ++ [1; 1; 1])
  = verify_quiz_answers (take 3 QUIZ_QUESTIONS) [0; 2; 0].
Proof.
  apply (verify_quiz_answers_positional (take 3 QUIZ_QUESTIONS) [0; 2; 0] [1; 1; 1]).
  simpl. lia.
Defined.
